(** * OutlineShadowsocksServer: configuration synchronizer and process supervisor

    A shallow embedding of [src/shadowbox/server/outline_shadowsocks_server.ts]
    and the properties of its configuration writes and of its supervision of
    the [outline-ss-server] subprocess. *)

From Stdlib Require Import String Ascii List NArith ZArith Lia Bool.
From stdpp Require Import base option list gmap strings pretty.

Local Open Scope string_scope.
Local Open Scope list_scope.

(** ** JavaScript strings

    A string is its sequence of code units.  The two operations the source
    uses on cipher names are [toLowerCase] and [endsWith]. *)

Module JsString.

(** The double quote, as a one-character string. *)
Definition dquote : string := String (ascii_of_nat 34) EmptyString.

(** The line feed, as a one-character string. *)
Definition newline : string := String (ascii_of_nat 10) EmptyString.

(** Lower-casing of one code unit: [A]..[Z] move to [a]..[z].  The letters
    of the suffixes tested by [isAeadCipher] are ASCII letters whose only
    upper-case forms are the ASCII capitals, so the ASCII range is where
    lower-casing decides the test. *)
Definition lower_ascii (c : ascii) : ascii :=
  let n := N_of_ascii c in
  if ((65 <=? n) && (n <=? 90))%N then ascii_of_N (n + 32) else c.

(** [s.toLowerCase()] *)
Fixpoint toLowerCase (s : string) : string :=
  match s with
  | EmptyString => EmptyString
  | String c r => String (lower_ascii c) (toLowerCase r)
  end.

(** [s.endsWith(suffix)]: the last [suffix.length] code units of [s] are
    those of [suffix]; false when [s] is shorter. *)
Definition endsWith (s suffix : string) : bool :=
  let n := String.length s in
  let m := String.length suffix in
  if (m <=? n)%nat then String.eqb (substring (n - m) m s) suffix else false.

(** [parts.join(sep)] *)
Fixpoint join (sep : string) (parts : list string) : string :=
  match parts with
  | [] => EmptyString
  | [p] => p
  | p :: rest => p +:+ sep +:+ join sep rest
  end.

End JsString.

Import JsString.

(** ** Cipher acceptance *)

(** [isAeadCipher(cipherAlias)] *)
Definition isAeadCipher (cipherAlias : string) : bool :=
  let cipherAlias := toLowerCase cipherAlias in
  endsWith cipherAlias "gcm" || endsWith cipherAlias "poly1305".

(** What [isAeadCipher] computes, as a proposition: the lower-cased name has
    [gcm] or [poly1305] at its end. *)
Definition ends_in_aead_suffix (cipherAlias : string) : Prop :=
  (exists p, toLowerCase cipherAlias = p +:+ "gcm") \/
  (exists p, toLowerCase cipherAlias = p +:+ "poly1305").

(** The letters of the alphabet, capital and small. *)
Definition letterCases : list (ascii * ascii) :=
  combine (list_ascii_of_string "ABCDEFGHIJKLMNOPQRSTUVWXYZ")
          (list_ascii_of_string "abcdefghijklmnopqrstuvwxyz").

(** Two code units are the same up to letter case: they are equal, or they
    are the capital and the small form of one letter. *)
Definition sameLetter (c d : ascii) : bool :=
  Ascii.eqb c d ||
  existsb (fun p => (Ascii.eqb c (fst p) && Ascii.eqb d (snd p)) ||
                    (Ascii.eqb c (snd p) && Ascii.eqb d (fst p))) letterCases.

(** Two strings are the same up to letter case, unit by unit. *)
Fixpoint equalIgnoringCase (a b : string) : bool :=
  match a, b with
  | EmptyString, EmptyString => true
  | String c a', String d b' => sameLetter c d && equalIgnoringCase a' b'
  | _, _ => false
  end.

(** The acceptance test in the specification's words, with the comparison
    spelled out and no use of the source's lower-casing: the name ends in
    the GCM suffix or in the Poly1305 suffix, compared without regard to
    letter case. *)
Definition namesAeadConstruction (cipherAlias : string) : Prop :=
  exists front ending,
    cipherAlias = front +:+ ending /\
    (equalIgnoringCase ending "GCM" = true \/
     equalIgnoringCase ending "Poly1305" = true).

(** Every code unit. *)
Definition allUnits : list ascii := map ascii_of_nat (seq 0 256).

(** ** Data model *)

(** Modelled from the spec: the interface [ShadowsocksAccessKey] is declared
    in [../model/shadowsocks_server], which is not part of the sources at
    hand.  A credential has an identifier, a secret, a cipher suite name and
    its transport parameter, the port. *)
Record ShadowsocksAccessKey := mkAccessKey {
  id : string;
  port : N;
  cipher : string;
  secret : string
}.

(** [const keysJson = {keys: [] as ShadowsocksAccessKey[]}] *)
Record KeysJson := mkKeysJson { keys : list ShadowsocksAccessKey }.

(** [keysJson.keys.push(key)] *)
Definition push (keysJson : KeysJson) (key : ShadowsocksAccessKey) : KeysJson :=
  mkKeysJson (keys keysJson ++ [key]).

(** A thrown JavaScript error, by its message. *)
Definition JsError : Type := string.

(** Handles of the child processes spawned by the component, in spawn order. *)
Definition Pid : Type := nat.

(** [class OutlineShadowsocksServer]: the private fields and the constructor
    parameters.  [ssProcess], [ipCountryFilename] and [ipAsnFilename] start
    out undefined.  ([proxyAgent] and [checkProxyConnection] are never used:
    the only call is commented out in [start].) *)
Record OutlineShadowsocksServer := mkServer {
  ssProcess : option Pid;
  ipCountryFilename : option string;
  ipAsnFilename : option string;
  isAsnMetricsEnabled : bool;
  isReplayProtectionEnabled : bool;
  binaryFilename : string;
  configFilename : string;
  verbose : bool;
  metricsLocation : string
}.

(** [new OutlineShadowsocksServer(binaryFilename, configFilename, verbose,
    metricsLocation)] *)
Definition new (binaryFilename configFilename : string) (verbose : bool)
    (metricsLocation : string) : OutlineShadowsocksServer :=
  mkServer None None None false false
           binaryFilename configFilename verbose metricsLocation.

(** What the component does to its surroundings, in the order it does it.
    Each entry is a call that returned: a [Mkdirp], an [AtomicWrite] or a
    [Spawn] that throws leaves no entry. *)
Inductive Effect :=
| LogInfo (message : string)
| LogError (message : string)
| Mkdirp (dir : string)
| AtomicWrite (filename filebody : string)
| Spawn (pid : Pid) (command : string) (args : list string)
| Kill (pid : Pid) (signal : string)
| PipeStdout (pid : Pid)
| PipeStderr (pid : Pid).

(** [process.env], as far as [start] reads it: its JSON rendering and the
    value of [ALL_PROXY]. *)
Record ProcessEnv := mkProcessEnv {
  env_json : string;
  env_ALL_PROXY : option string
}.

(** The component together with the part of the world it acts on: the files
    on disk, the child processes that are running, the launches that failed
    and have not reported it yet, and the log of effects. *)
Record Sys := mkSys {
  this : OutlineShadowsocksServer;
  files : gmap string string;
  live : list Pid;
  launchErrors : list (Pid * JsError);
  nextPid : Pid;
  env : ProcessEnv;
  trace : list Effect
}.

Definition set_this (t : OutlineShadowsocksServer) (s : Sys) : Sys :=
  mkSys t (files s) (live s) (launchErrors s) (nextPid s) (env s) (trace s).

Definition set_files (fs : gmap string string) (s : Sys) : Sys :=
  mkSys (this s) fs (live s) (launchErrors s) (nextPid s) (env s) (trace s).

Definition set_live (l : list Pid) (s : Sys) : Sys :=
  mkSys (this s) (files s) l (launchErrors s) (nextPid s) (env s) (trace s).

Definition set_launchErrors (l : list (Pid * JsError)) (s : Sys) : Sys :=
  mkSys (this s) (files s) (live s) l (nextPid s) (env s) (trace s).

Definition set_nextPid (n : Pid) (s : Sys) : Sys :=
  mkSys (this s) (files s) (live s) (launchErrors s) n (env s) (trace s).

(** Append one effect to the log. *)
Definition emit (e : Effect) (s : Sys) : Sys :=
  mkSys (this s) (files s) (live s) (launchErrors s) (nextPid s) (env s)
        (trace s ++ [e]).

(** ** What the surroundings decide *)

Inductive MkdirpOutcome :=
| MkdirpDone
| MkdirpThrows (error : JsError).

(** The atomic write draws a stamp for its temporary file; the write of the
    temporary file can throw (leaving nothing, or a prefix of the body), and
    so can the rename. *)
Inductive AtomicWriteOutcome :=
| WriteDone (stamp : string)
| TempWriteThrows (stamp : string) (written : option nat) (error : JsError)
| RenameThrows (stamp : string) (error : JsError).

Record IoOutcome := mkIo {
  io_mkdirp : MkdirpOutcome;
  io_write : AtomicWriteOutcome
}.

(** What becomes of a launch: when [child_process.spawn] returns a handle,
    the child runs, or the launch fails, which the handle reports later
    through its ['error'] event without ever emitting ['exit'].  The failures
    of a launch are taken to be the run-time ones (no such binary, no
    permission, a limit on processes or on descriptors), which Node reports
    this way and not by an exception. *)
Inductive SpawnOutcome :=
| Launched
| LaunchFails (error : JsError).

(** ** Completions: a small state and exception monad over [Sys] *)

Inductive Completion (A : Type) :=
| Normal (a : A)
| Throw (error : JsError).

Arguments Normal {A} a.
Arguments Throw {A} error.

Definition M (A : Type) : Type := Sys -> Completion A * Sys.

Definition ret {A} (a : A) : M A := fun s => (Normal a, s).

Definition throw {A} (error : JsError) : M A := fun s => (Throw error, s).

Definition bind {A B} (m : M A) (k : A -> M B) : M B :=
  fun s => match m s with
           | (Normal a, s') => k a s'
           | (Throw error, s') => (Throw error, s')
           end.

(** [try { body } catch (error) { handler }] *)
Definition try_catch {A} (body : M A) (handler : JsError -> M A) : M A :=
  fun s => match body s with
           | (Normal a, s') => (Normal a, s')
           | (Throw error, s') => handler error s'
           end.

Definition get_this : M OutlineShadowsocksServer := fun s => (Normal (this s), s).

Definition modify (f : Sys -> Sys) : M unit := fun s => (Normal tt, f s).

Declare Scope js_scope.
Delimit Scope js_scope with js.
Notation "x <- m ;; k" := (bind m (fun x => k))
  (at level 100, m at next level, right associativity) : js_scope.
Notation "m ;;; k" := (bind m (fun _ => k))
  (at level 100, right associativity) : js_scope.
Local Open Scope js_scope.

(** [logging.info(message)], [logging.error(message)] *)
Definition logging_info (message : string) : M unit := modify (emit (LogInfo message)).
Definition logging_error (message : string) : M unit := modify (emit (LogError message)).

(** ** Paths and files *)

(** [path.dirname(p)] of Node's [path] module, for POSIX paths: the scan runs
    over the indices [p.length - 1] down to [1], skips trailing slashes and
    stops at the first slash that follows a name. *)
Fixpoint dirname_end (rev_units : list ascii) (i : nat) (matchedSlash : bool)
    : option nat :=
  match rev_units, i with
  | c :: r, S i' =>
      if Ascii.eqb c "/" then
        if matchedSlash then dirname_end r i' true else Some i
      else dirname_end r i' false
  | _, _ => None
  end.

Definition dirname (p : string) : string :=
  match p with
  | EmptyString => "."
  | String c0 _ =>
      let hasRoot := Ascii.eqb c0 "/" in
      match dirname_end (rev (list_ascii_of_string p)) (String.length p - 1) true with
      | None => if hasRoot then "/" else "."
      | Some e => if hasRoot && (e =? 1)%nat then "//" else substring 0 e p
      end
  end.

(** [mkdirp.sync(dir)] *)
Definition mkdirp_sync (dir : string) (o : MkdirpOutcome) : M unit :=
  match o with
  | MkdirpDone => modify (emit (Mkdirp dir))
  | MkdirpThrows error => throw error
  end.

(** The two file system calls of the atomic write, on the map from paths to
    contents. *)
Definition writeFile (filename filebody : string) (fs : gmap string string)
    : gmap string string :=
  <[filename := filebody]> fs.

Definition rename (oldPath newPath : string) (fs : gmap string string)
    : gmap string string :=
  match fs !! oldPath with
  | Some body => <[newPath := body]> (delete oldPath fs)
  | None => fs
  end.

(** Modelled from the spec: the temporary location of the atomic write is in
    the same directory as the final path.  Its name is the final name, a dot
    and the stamp. *)
Definition tempFilename (filename stamp : string) : string :=
  filename +:+ "." +:+ stamp.

(** Modelled from the spec: [file.atomicWriteFileSync] is defined in
    [../infrastructure/file], which is not part of the sources at hand.  The
    body is written to a temporary location in the same directory as the
    final path, and then moved onto the final path by one rename; either step
    can throw. *)
Definition atomicWriteFileSync (filename filebody : string)
    (o : AtomicWriteOutcome) : M unit :=
  match o with
  | WriteDone stamp =>
      let tmp := tempFilename filename stamp in
      modify (fun s => set_files (writeFile tmp filebody (files s)) s) ;;;
      modify (fun s => set_files (rename tmp filename (files s)) s) ;;;
      modify (emit (AtomicWrite filename filebody))
  | TempWriteThrows stamp written error =>
      let tmp := tempFilename filename stamp in
      modify (fun s =>
        match written with
        | Some n => set_files (writeFile tmp (substring 0 n filebody) (files s)) s
        | None => s
        end) ;;;
      throw error
  | RenameThrows stamp error =>
      let tmp := tempFilename filename stamp in
      modify (fun s => set_files (writeFile tmp filebody (files s)) s) ;;;
      throw error
  end.

(** ** Serialization *)

Inductive Scalar :=
| Str (s : string)
| Num (n : N).

(** The own properties of a credential object.  The order in which its
    creator set them is not known here; [sortKeys] makes it irrelevant. *)
Definition fields (key : ShadowsocksAccessKey) : list (string * Scalar) :=
  [ ("id", Str (id key)); ("port", Num (port key));
    ("cipher", Str (cipher key)); ("secret", Str (secret key)) ].

(** [sortKeys: true]: the fields of a mapping are written in the order of
    their names. *)
Fixpoint insertField (f : string * Scalar) (sorted : list (string * Scalar))
    : list (string * Scalar) :=
  match sorted with
  | [] => [f]
  | g :: rest =>
      if String.leb (fst f) (fst g) then f :: g :: rest
      else g :: insertField f rest
  end.

Definition sortKeys (fs : list (string * Scalar)) : list (string * Scalar) :=
  fold_right insertField [] fs.

Definition isPlainUnit (c : ascii) : bool :=
  let n := N_of_ascii c in
  (((48 <=? n) && (n <=? 57)) || ((65 <=? n) && (n <=? 90)) ||
   ((97 <=? n) && (n <=? 122)) || (n =? 45) || (n =? 46) || (n =? 47) ||
   (n =? 95))%N.

Definition isLetter (c : ascii) : bool :=
  let n := N_of_ascii c in
  (((65 <=? n) && (n <=? 90)) || ((97 <=? n) && (n <=? 122)))%N.

Definition isPlain (s : string) : bool :=
  match s with
  | EmptyString => false
  | String c _ => isLetter c && forallb isPlainUnit (list_ascii_of_string s)
  end.

Fixpoint escapeSingle (s : string) : string :=
  match s with
  | EmptyString => EmptyString
  | String c r =>
      if Ascii.eqb c "'" then String c (String c (escapeSingle r))
      else String c (escapeSingle r)
  end.

Definition writeScalar (v : Scalar) : string :=
  match v with
  | Num n => pretty n
  | Str s => if isPlain s then s else "'" +:+ escapeSingle s +:+ "'"
  end.

Definition dumpField (f : string * Scalar) : string :=
  fst f +:+ ": " +:+ writeScalar (snd f).

Definition dumpRecord (key : ShadowsocksAccessKey) : string :=
  "  - " +:+ join (newline +:+ "    ") (map dumpField (sortKeys (fields key)))
  +:+ newline.

(** Modelled from the spec: [jsyaml.safeDump(keysJson, {sortKeys: true})] is
    a library call.  The artifact is a textual mapping with the single
    top-level field [keys], holding the sequence of credential records in the
    order of the list, the fields of each record in alphabetical order.  A
    string made of letters, digits, [-], [.], [/] and [_] that starts with a
    letter is written as it is, any other in single quotes. *)
Definition safeDump (keysJson : KeysJson) : string :=
  match keys keysJson with
  | [] => "keys: []" +:+ newline
  | ks => "keys:" +:+ newline +:+ String.concat EmptyString (map dumpRecord ks)
  end.

(** ** The component's methods *)

(** How a promise ends. *)
Inductive Settlement :=
| Fulfilled
| Rejected (reason : JsError).

(** [new Promise(executor)]: the executor runs at once; it reports what it
    passed to [resolve] or [reject], and an executor that throws rejects the
    promise with what it threw. *)
Definition new_Promise (executor : M Settlement) (s : Sys) : Settlement * Sys :=
  match executor s with
  | (Normal outcome, s') => (outcome, s')
  | (Throw error, s') => (Rejected error, s')
  end.

(** A [then] callback that runs, and how its promise ends: rejected when the
    callback throws, fulfilled when it returns (at once, or, when it returns
    a promise that is fulfilled, once the jobs of that promise have run). *)
Definition run_callback {A} (callback : M A) (s : Sys) : Settlement * Sys :=
  match callback s with
  | (Normal _, s') => (Fulfilled, s')
  | (Throw error, s') => (Rejected error, s')
  end.

Definition set_ssProcess (p : option Pid) (t : OutlineShadowsocksServer)
    : OutlineShadowsocksServer :=
  mkServer p (ipCountryFilename t) (ipAsnFilename t) (isAsnMetricsEnabled t)
           (isReplayProtectionEnabled t) (binaryFilename t) (configFilename t)
           (verbose t) (metricsLocation t).

(** [configureCountryMetrics(ipCountryFilename)] *)
Definition configureCountryMetrics (filename : string)
    (t : OutlineShadowsocksServer) : OutlineShadowsocksServer :=
  mkServer (ssProcess t) (Some filename) (ipAsnFilename t)
           (isAsnMetricsEnabled t) (isReplayProtectionEnabled t)
           (binaryFilename t) (configFilename t) (verbose t) (metricsLocation t).

(** [configureAsnMetrics(ipAsnFilename)] *)
Definition configureAsnMetrics (filename : string)
    (t : OutlineShadowsocksServer) : OutlineShadowsocksServer :=
  mkServer (ssProcess t) (ipCountryFilename t) (Some filename)
           (isAsnMetricsEnabled t) (isReplayProtectionEnabled t)
           (binaryFilename t) (configFilename t) (verbose t) (metricsLocation t).

(** [enableReplayProtection()] *)
Definition enableReplayProtection (t : OutlineShadowsocksServer)
    : OutlineShadowsocksServer :=
  mkServer (ssProcess t) (ipCountryFilename t) (ipAsnFilename t)
           (isAsnMetricsEnabled t) true
           (binaryFilename t) (configFilename t) (verbose t) (metricsLocation t).

(** The message logged for a credential that is dropped. *)
Definition unsupportedCipherMessage (key : ShadowsocksAccessKey) : string :=
  "Cipher " +:+ cipher key +:+ " for access key " +:+ id key +:+
  " is not supported: use an AEAD cipher instead.".

(** The loop [for (const key of keys)] of [writeConfigFile]. *)
Fixpoint for_keys (accessKeys : list ShadowsocksAccessKey) (keysJson : KeysJson)
    : M KeysJson :=
  match accessKeys with
  | [] => ret keysJson
  | key :: rest =>
      if negb (isAeadCipher (cipher key)) then
        logging_error (unsupportedCipherMessage key) ;;;
        for_keys rest keysJson
      else
        for_keys rest (push keysJson key)
  end.

(** The executor of the promise made by [writeConfigFile]: [mkdirp.sync]
    stands outside the [try], the write inside. *)
Definition writeConfigFile_executor (accessKeys : list ShadowsocksAccessKey)
    (io : IoOutcome) : M Settlement :=
  keysJson <- for_keys accessKeys (mkKeysJson []) ;;
  t <- get_this ;;
  mkdirp_sync (dirname (configFilename t)) (io_mkdirp io) ;;;
  try_catch
    (atomicWriteFileSync (configFilename t) (safeDump keysJson) (io_write io) ;;;
     ret Fulfilled)
    (fun error => ret (Rejected error)).

(** [writeConfigFile(keys)] *)
Definition writeConfigFile (accessKeys : list ShadowsocksAccessKey)
    (io : IoOutcome) : Sys -> Settlement * Sys :=
  new_Promise (writeConfigFile_executor accessKeys io).

(** A JavaScript truthiness test on an optional string: undefined and the
    empty string are falsy. *)
Definition truthy (o : option string) : option string :=
  match o with
  | Some EmptyString => None
  | Some f => Some f
  | None => None
  end.

Definition replayHistoryArgument : string := "--replay_history=10000".

(** The argument list built by [start]. *)
Definition commandArguments (t : OutlineShadowsocksServer) : list string :=
  let commandArguments :=
    ["-config"; configFilename t; "-metrics"; metricsLocation t] in
  let commandArguments :=
    match truthy (ipCountryFilename t) with
    | Some f => commandArguments ++ ["-ip_country_db"; f]
    | None => commandArguments
    end in
  let commandArguments :=
    match truthy (ipAsnFilename t) with
    | Some f => commandArguments ++ ["-ip_asn_db"; f]
    | None => commandArguments
    end in
  let commandArguments :=
    if verbose t then commandArguments ++ ["-verbose"] else commandArguments in
  if isReplayProtectionEnabled t
  then commandArguments ++ [replayHistoryArgument]
  else commandArguments.

(** A value inside a template literal: [null] and [undefined] by name. *)
Definition orNull (o : option string) : string :=
  match o with Some v => v | None => "null" end.

Definition orUndefined (o : option string) : string :=
  match o with Some v => v | None => "undefined" end.

(** What [child_process.spawn] throws for an empty command. *)
Definition emptyCommandError : JsError :=
  "TypeError [ERR_INVALID_ARG_VALUE]: The argument 'file' cannot be empty. Received ''".

(** [child_process.spawn(command, args, {env})].  An empty command is refused
    by the argument check: the call throws, and there is no handle.
    Otherwise the call returns a fresh handle; the process runs from now on
    unless the launch fails, which the handle reports later. *)
Definition child_process_spawn (command : string) (args : list string)
    (sp : SpawnOutcome) : M Pid :=
  fun s =>
    match command with
    | EmptyString => (Throw emptyCommandError, s)
    | String _ _ =>
        let pid := nextPid s in
        let s1 := emit (Spawn pid command args) (set_nextPid (S pid) s) in
        let s2 := match sp with
                  | Launched => set_live (live s1 ++ [pid]) s1
                  | LaunchFails error =>
                      set_launchErrors (launchErrors s1 ++ [(pid, error)]) s1
                  end in
        (Normal pid, s2)
    end.

(** [start()].  When [spawn] throws, [start] throws with it: the handle is
    not assigned and no handler is registered. *)
Definition start (sp : SpawnOutcome) : M unit :=
  logging_info "Starting Shadowsocks service with proxy..." ;;;
  t <- get_this ;;
  let args := commandArguments t in
  logging_info "======== Starting Outline Shadowsocks Service ========" ;;;
  logging_info (binaryFilename t +:+ " " +:+
                join " " (map (fun a => dquote +:+ a +:+ dquote) args)) ;;;
  e <- (fun s => (Normal (env s), s)) ;;
  logging_info ("Full environment: " +:+ env_json e) ;;;
  logging_info ("ALL_PROXY is set to: " +:+ orUndefined (env_ALL_PROXY e)) ;;;
  pid <- child_process_spawn (binaryFilename t) args sp ;;
  modify (fun s => set_this (set_ssProcess (Some pid) (this s)) s) ;;;
  modify (emit (PipeStdout pid)) ;;;
  modify (emit (PipeStderr pid)).

(** The handlers registered by [start] on the child it spawned. *)
Definition on_error (error : JsError) : M unit :=
  logging_error ("Error spawning outline-ss-server: " +:+ error).

Definition on_exit (code : option Z) (signal : option string)
    (sp : SpawnOutcome) : M unit :=
  logging_info ("outline-ss-server has exited with error. Code: " +:+
                orNull (pretty <$> code) +:+ ", Signal: " +:+ orNull signal) ;;;
  logging_info "Restarting" ;;;
  start sp.

Definition on_stdout_data (data : string) : M unit :=
  logging_info ("Shadowsocks stdout: " +:+ data).

Definition on_stderr_data (data : string) : M unit :=
  logging_error ("Shadowsocks stderr: " +:+ data).

(** What the callback of [update] returns: [Promise.resolve()] after a
    start, nothing after a signal. *)
Inductive Returned :=
| ReturnedPromise
| ReturnedUndefined.

(** The callback passed to [then] in [update]. *)
Definition update_then (sp : SpawnOutcome) : M Returned :=
  t <- get_this ;;
  match ssProcess t with
  | None => start sp ;;; ret ReturnedPromise
  | Some pid => modify (emit (Kill pid "SIGHUP")) ;;; ret ReturnedUndefined
  end.

(** [update(keys)], run to the settlement of the promise it returns, with
    nothing else in between: the write, and when the write is fulfilled, the
    callback. *)
Definition update (accessKeys : list ShadowsocksAccessKey) (io : IoOutcome)
    (sp : SpawnOutcome) (s : Sys) : Settlement * Sys :=
  match writeConfigFile accessKeys io s with
  | (Fulfilled, s1) => run_callback (update_then sp) s1
  | (Rejected error, s1) => (Rejected error, s1)
  end.

(** ** The event loop

    Calls of the public methods come from the caller's code; a promise job
    runs when the code that queued it has returned, the oldest first; the
    events of a child process are delivered only when no job is waiting. *)

(** The promise jobs an [update] goes through.  [ThenJob]: the reaction of
    [writeConfigFile(keys).then(...)], with the promise that [update]
    returned and the settlement of the write.  When the callback returns
    [Promise.resolve()], the promise of [update] is not settled yet: a
    [ResolveThenableJob] calls [then] on the returned promise, which queues
    the [SettleJob] that fulfils the promise of [update]. *)
Inductive Job :=
| ThenJob (promise : nat) (upstream : Settlement)
| ResolveThenableJob (promise : nat)
| SettleJob (promise : nat).

Record Loop := mkLoop {
  sys : Sys;
  jobs : list Job;
  settled : list (nat * Settlement);
  nextPromise : nat
}.

Inductive Event :=
| CallConfigureCountryMetrics (filename : string)
| CallConfigureAsnMetrics (filename : string)
| CallEnableReplayProtection
| CallUpdate (accessKeys : list ShadowsocksAccessKey) (io : IoOutcome)
| RunJob (sp : SpawnOutcome)
| OnExit (pid : Pid) (code : option Z) (signal : option string) (sp : SpawnOutcome)
| OnError (pid : Pid)
| OnStdoutData (pid : Pid) (data : string)
| OnStderrData (pid : Pid) (data : string).

Definition with_sys (s : Sys) (l : Loop) : Loop :=
  mkLoop s (jobs l) (settled l) (nextPromise l).

(** The state a handler leaves. *)
Definition exec (handler : M unit) (s : Sys) : Sys := snd (handler s).

Definition idle (l : Loop) : bool :=
  match jobs l with [] => true | _ => false end.

Definition launchErrorOf (pid : Pid) (s : Sys) : option JsError :=
  snd <$> find (fun pe => Nat.eqb (fst pe) pid) (launchErrors s).

(** One turn.  [None]: the event cannot happen in this state, or its handler
    throws an exception, which nobody catches. *)
Definition step (ev : Event) (l : Loop) : option Loop :=
  let s := sys l in
  match ev with
  | CallConfigureCountryMetrics filename =>
      Some (with_sys (set_this (configureCountryMetrics filename (this s)) s) l)
  | CallConfigureAsnMetrics filename =>
      Some (with_sys (set_this (configureAsnMetrics filename (this s)) s) l)
  | CallEnableReplayProtection =>
      Some (with_sys (set_this (enableReplayProtection (this s)) s) l)
  | CallUpdate accessKeys io =>
      let '(outcome, s') := writeConfigFile accessKeys io s in
      Some (mkLoop s' (jobs l ++ [ThenJob (nextPromise l) outcome]) (settled l)
                   (S (nextPromise l)))
  | RunJob sp =>
      match jobs l with
      | [] => None
      | ThenJob promise Fulfilled :: rest =>
          match update_then sp s with
          | (Normal ReturnedPromise, s') =>
              Some (mkLoop s' (rest ++ [ResolveThenableJob promise]) (settled l)
                           (nextPromise l))
          | (Normal ReturnedUndefined, s') =>
              Some (mkLoop s' rest (settled l ++ [(promise, Fulfilled)])
                           (nextPromise l))
          | (Throw error, s') =>
              Some (mkLoop s' rest (settled l ++ [(promise, Rejected error)])
                           (nextPromise l))
          end
      | ThenJob promise (Rejected reason) :: rest =>
          Some (mkLoop s rest (settled l ++ [(promise, Rejected reason)])
                       (nextPromise l))
      | ResolveThenableJob promise :: rest =>
          Some (mkLoop s (rest ++ [SettleJob promise]) (settled l)
                       (nextPromise l))
      | SettleJob promise :: rest =>
          Some (mkLoop s rest (settled l ++ [(promise, Fulfilled)])
                       (nextPromise l))
      end
  | OnExit pid code signal sp =>
      if idle l && bool_decide (pid ∈ live s) then
        match on_exit code signal sp
                      (set_live (filter (fun p => p ≠ pid) (live s)) s) with
        | (Normal _, s') => Some (with_sys s' l)
        | (Throw _, _) => None
        end
      else None
  | OnError pid =>
      if idle l then
        match launchErrorOf pid s with
        | Some error =>
            Some (with_sys
                    (exec (on_error error)
                          (set_launchErrors
                             (filter (fun pe => fst pe ≠ pid) (launchErrors s)) s)) l)
        | None => None
        end
      else None
  | OnStdoutData pid data =>
      if idle l && bool_decide (pid < nextPid s) then
        Some (with_sys (exec (on_stdout_data data) s) l)
      else None
  | OnStderrData pid data =>
      if idle l && bool_decide (pid < nextPid s) then
        Some (with_sys (exec (on_stderr_data data) s) l)
      else None
  end.

Fixpoint run (evs : list Event) (l : Loop) : option Loop :=
  match evs with
  | [] => Some l
  | ev :: rest =>
      match step ev l with
      | Some l' => run rest l'
      | None => None
      end
  end.

(** A freshly constructed component: no child, nothing logged, no job. *)
Definition boot (t : OutlineShadowsocksServer) (e : ProcessEnv)
    (fs : gmap string string) : Loop :=
  mkLoop (mkSys t fs [] [] 0 e []) [] [] 0.

(** ** Reading the log of effects *)

(** The starts of the subprocess that were requested: command and argument
    list of each, oldest first. *)
Definition spawnRequest (e : Effect) : option (string * list string) :=
  match e with Spawn _ command args => Some (command, args) | _ => None end.

Definition spawnRequests (tr : list Effect) : list (string * list string) :=
  omap spawnRequest tr.

(** How many starts of the subprocess were requested. *)
Definition startsRequested (tr : list Effect) : nat :=
  length (spawnRequests tr).

(** The reload signals that were sent, oldest first. *)
Definition killRequest (e : Effect) : option (Pid * string) :=
  match e with Kill pid signal => Some (pid, signal) | _ => None end.

Definition killRequests (tr : list Effect) : list (Pid * string) :=
  omap killRequest tr.

(** Append a run of effects to the log. *)
Definition emits (es : list Effect) (s : Sys) : Sys :=
  mkSys (this s) (files s) (live s) (launchErrors s) (nextPid s) (env s)
        (trace s ++ es).

(** The diagnostics for the credentials of a list that are dropped. *)
Definition rejectedLogs (accessKeys : list ShadowsocksAccessKey) : list Effect :=
  map (fun key => LogError (unsupportedCipherMessage key))
      (List.filter (fun key => negb (isAeadCipher (cipher key))) accessKeys).

(** What one run of [start] adds to the log. *)
Definition startEffects (t : OutlineShadowsocksServer) (e : ProcessEnv)
    (pid : Pid) : list Effect :=
  [ LogInfo "Starting Shadowsocks service with proxy...";
    LogInfo "======== Starting Outline Shadowsocks Service ========";
    LogInfo (binaryFilename t +:+ " " +:+
             join " " (map (fun a => dquote +:+ a +:+ dquote) (commandArguments t)));
    LogInfo ("Full environment: " +:+ env_json e);
    LogInfo ("ALL_PROXY is set to: " +:+ orUndefined (env_ALL_PROXY e));
    Spawn pid (binaryFilename t) (commandArguments t);
    PipeStdout pid;
    PipeStderr pid ].

(** [x] stands somewhere before [y] in [l]. *)
Definition before {A} (x y : A) (l : list A) : Prop :=
  exists l1 l2 l3, l = l1 ++ x :: l2 ++ y :: l3.

(** An optional flag with its value. *)
Definition optionalPair (flag : string) (l : list string) : Prop :=
  l = [] \/ exists value, l = [flag; value].

Definition isBuilderCall (ev : Event) : bool :=
  match ev with
  | CallConfigureCountryMetrics _ | CallConfigureAsnMetrics _
  | CallEnableReplayProtection => true
  | _ => false
  end.

Definition isEnableReplayProtection (ev : Event) : bool :=
  match ev with CallEnableReplayProtection => true | _ => false end.

(** The accepted credentials of a list, in the order of the list. *)
Definition accepted (accessKeys : list ShadowsocksAccessKey)
    : list ShadowsocksAccessKey :=
  List.filter (fun key => isAeadCipher (cipher key)) accessKeys.

(** Whether the outcomes of the surroundings are those of a write that ends
    well. *)
Definition ioSucceeds (io : IoOutcome) : bool :=
  match io_mkdirp io, io_write io with
  | MkdirpDone, WriteDone _ => true
  | _, _ => false
  end.


(** The error of the write, if one of its two calls throws: the directory
    creation, or else a step of the atomic write. *)
Definition ioError (io : IoOutcome) : option JsError :=
  match io_mkdirp io with
  | MkdirpThrows error => Some error
  | MkdirpDone =>
      match io_write io with
      | WriteDone _ => None
      | TempWriteThrows _ _ error => Some error
      | RenameThrows _ error => Some error
      end
  end.

(** What holds of the component between two turns of the event loop: without
    a handle nothing runs and no start was ever requested; with a handle, the
    command is one that [spawn] accepts and the child the handle stands for
    is the only one that can be running. *)
Definition supervised (s : Sys) : Prop :=
  match ssProcess (this s) with
  | None => live s = [] /\ spawnRequests (trace s) = []
  | Some pid =>
      pid < nextPid s /\ binaryFilename (this s) <> EmptyString /\
      (live s = [] \/ live s = [pid])
  end.

(** What [start] logs before it calls [spawn]. *)
Definition startLogs (t : OutlineShadowsocksServer) (e : ProcessEnv)
    : list Effect :=
  [ LogInfo "Starting Shadowsocks service with proxy...";
    LogInfo "======== Starting Outline Shadowsocks Service ========";
    LogInfo (binaryFilename t +:+ " " +:+
             join " " (map (fun a => dquote +:+ a +:+ dquote) (commandArguments t)));
    LogInfo ("Full environment: " +:+ env_json e);
    LogInfo ("ALL_PROXY is set to: " +:+ orUndefined (env_ALL_PROXY e)) ].

(** The settlement of the promise of [writeConfigFile]. *)
Definition writeOutcome (io : IoOutcome) : Settlement :=
  match ioError io with
  | Some error => Rejected error
  | None => Fulfilled
  end.

(** Whether the callback of [update] would call [start] and [spawn] would
    refuse the command: there is no handle and the command is empty. *)
Definition startThrows (t : OutlineShadowsocksServer) : bool :=
  match ssProcess t, binaryFilename t with
  | None, EmptyString => true
  | _, _ => false
  end.

(** Whether an [update] starts the child: its write ends well, there is no
    handle and [spawn] accepts the command. *)
Definition updateStarts (io : IoOutcome) (t : OutlineShadowsocksServer) : bool :=
  ioSucceeds io &&
  match ssProcess t, binaryFilename t with
  | None, String _ _ => true
  | _, _ => false
  end.

Definition isRunJob (ev : Event) : bool :=
  match ev with RunJob _ => true | _ => false end.

(** How many promise jobs a history runs. *)
Definition jobsRun (evs : list Event) : nat :=
  length (List.filter isRunJob evs).

(** The effect of a builder call on the component. *)
Definition applyBuilderCall (t : OutlineShadowsocksServer) (ev : Event)
    : OutlineShadowsocksServer :=
  match ev with
  | CallConfigureCountryMetrics filename => configureCountryMetrics filename t
  | CallConfigureAsnMetrics filename => configureAsnMetrics filename t
  | CallEnableReplayProtection => enableReplayProtection t
  | _ => t
  end.

(** What the exit handler logs before it starts the next child. *)
Definition exitLogs (code : option Z) (signal : option string) : list Effect :=
  [ LogInfo ("outline-ss-server has exited with error. Code: " +:+
             orNull (pretty <$> code) +:+ ", Signal: " +:+ orNull signal);
    LogInfo "Restarting" ].

(** Whether a string holds a line feed. *)
Fixpoint hasNewline (s : string) : bool :=
  match s with
  | EmptyString => false
  | String c r => Ascii.eqb c (ascii_of_nat 10) || hasNewline r
  end.

(** ** Sample inputs *)

Module Sample.

Definition keyA : ShadowsocksAccessKey :=
  mkAccessKey "a" 8388 "chacha20-poly1305" "s3cret".

Definition keyB : ShadowsocksAccessKey :=
  mkAccessKey "b" 8389 "rc4" "pw".

Definition keyC : ShadowsocksAccessKey :=
  mkAccessKey "7" 8390 "AES-256-GCM" "it's".

Definition server : OutlineShadowsocksServer :=
  new "/opt/outline-ss-server" "/opt/outline/config.yml" true "127.0.0.1:9092".

Definition processEnv : ProcessEnv := mkProcessEnv "{}" None.

(** A disk that holds an older configuration. *)
Definition disk : gmap string string :=
  {[ "/opt/outline/config.yml" := "keys: []" +:+ newline ]}.

Definition fresh : Sys := mkSys server disk [] [] 0 processEnv [].

(** The same component with its first child running. *)
Definition running : Sys :=
  mkSys (set_ssProcess (Some 0) server) disk [0] [] 1 processEnv
        (startEffects server processEnv 0).

Definition ioDone : IoOutcome := mkIo MkdirpDone (WriteDone "1700000000000").

Definition ioNoDirectory : IoOutcome :=
  mkIo (MkdirpThrows "EACCES: permission denied, mkdir")
       (WriteDone "1700000000000").

Definition ioTornWrite : IoOutcome :=
  mkIo MkdirpDone (TempWriteThrows "1700000000000" (Some 9) "ENOSPC: no space left").


(** The loop after a first [update] that went well. *)
Definition afterFirstUpdate : Loop :=
  mkLoop (snd (update [keyA] ioDone Launched fresh)) [] [(0, Fulfilled)] 1.

(** A second [update] is called while the first child runs; before its job
    runs, replay protection is enabled and a third [update] is called, whose
    directory creation fails; then the job of the second [update] runs. *)
Definition reloadCalled : Loop :=
  mkLoop (snd (writeConfigFile [keyC] ioDone (sys afterFirstUpdate)))
         [ThenJob 1 Fulfilled] [(0, Fulfilled)] 2.

Definition reloadWaiting : Loop :=
  mkLoop (snd (writeConfigFile [keyB] ioNoDirectory
                 (set_this (enableReplayProtection (this (sys reloadCalled)))
                           (sys reloadCalled))))
         [ThenJob 1 Fulfilled;
          ThenJob 2 (Rejected "EACCES: permission denied, mkdir")]
         [(0, Fulfilled)] 3.

Definition reloadSent : Loop :=
  mkLoop (emit (Kill 0 "SIGHUP") (sys reloadWaiting))
         [ThenJob 2 (Rejected "EACCES: permission denied, mkdir")]
         [(0, Fulfilled); (1, Fulfilled)] 3.

(** A component constructed with an empty path of the binary. *)
Definition noCommand : Sys :=
  mkSys (new EmptyString "/opt/outline/config.yml" false "127.0.0.1:9092")
        disk [] [] 0 processEnv [].

End Sample.

(** ** Reading the log and the history further *)

Definition isLogError (e : Effect) : bool :=
  match e with LogError _ => true | _ => false end.

(** The handles of the children that were spawned, oldest first. *)
Definition spawnPid (e : Effect) : option Pid :=
  match e with Spawn pid _ _ => Some pid | _ => None end.

Definition spawnPids (tr : list Effect) : list Pid := omap spawnPid tr.

Definition isOnExit (ev : Event) : bool :=
  match ev with OnExit _ _ _ _ => true | _ => false end.

(** How many exits of a child the history delivered. *)
Definition exitsHandled (evs : list Event) : nat :=
  length (List.filter isOnExit evs).

(** One when the component holds a handle, zero when it does not. *)
Definition handleCount (t : OutlineShadowsocksServer) : nat :=
  match ssProcess t with Some _ => 1 | None => 0 end.

(** The filename of the last [configureCountryMetrics] of a history, and of
    the last [configureAsnMetrics]. *)
Definition lastCountryMetrics (calls : list Event) : option string :=
  fold_left (fun acc ev =>
               match ev with
               | CallConfigureCountryMetrics filename => Some filename
               | _ => acc
               end) calls None.

Definition lastAsnMetrics (calls : list Event) : option string :=
  fold_left (fun acc ev =>
               match ev with
               | CallConfigureAsnMetrics filename => Some filename
               | _ => acc
               end) calls None.

(** A flag with its value, when the value is set and not empty. *)
Definition optionalArgument (flag : string) (value : option string)
    : list string :=
  match truthy value with
  | Some f => [flag; f]
  | None => []
  end.

(** ** Further sample states *)

Module Scenario.

(** The loop after a second [update] that went well. *)
Definition afterSecondUpdate : Loop :=
  mkLoop (snd (update [Sample.keyC] Sample.ioDone Launched
                      (sys Sample.afterFirstUpdate)))
         [] [(0, Fulfilled); (1, Fulfilled)] 2.

(** The loop after a first [update] whose launch failed. *)
Definition afterFailedLaunch : Loop :=
  mkLoop (snd (update [Sample.keyA] Sample.ioDone (LaunchFails "spawn ENOENT")
                      Sample.fresh))
         [] [(0, Fulfilled)] 1.

(** The same, after one more [update]. *)
Definition afterFailedLaunchAndUpdate : Loop :=
  mkLoop (snd (update [Sample.keyC] Sample.ioDone Launched
                      (sys afterFailedLaunch)))
         [] [(0, Fulfilled); (1, Fulfilled)] 2.

(** The first child has exited and its replacement did not launch. *)
Definition afterFailedRelaunch : Loop :=
  with_sys (exec (on_exit (Some 1%Z) None (LaunchFails "spawn EACCES"))
                 (set_live [] (sys Sample.afterFirstUpdate)))
           Sample.afterFirstUpdate.

(** The first child wrote a line on its standard output. *)
Definition afterOutput : Loop :=
  with_sys (exec (on_stdout_data "listening") (sys Sample.afterFirstUpdate))
           Sample.afterFirstUpdate.

(** Replay protection is enabled once the first child runs. *)
Definition afterLateEnable : Loop :=
  with_sys (set_this (enableReplayProtection (this (sys Sample.afterFirstUpdate)))
                     (sys Sample.afterFirstUpdate))
           Sample.afterFirstUpdate.

End Scenario.

(** * Properties *)

(** ** Strings *)

Lemma append_String (c : ascii) (a b : string) :
  String c a +:+ b = String c (a +:+ b).
Proof. reflexivity. Qed.

Lemma length_append (a b : string) :
  String.length (a +:+ b) = String.length a + String.length b.
Proof.
  induction a as [|c a IH]; [reflexivity|].
  rewrite append_String. simpl. now rewrite IH.
Qed.

Lemma substring_all (s : string) : substring 0 (String.length s) s = s.
Proof. induction s as [|c s IH]; simpl; [reflexivity | now rewrite IH]. Qed.

Lemma substring_append_skip (p s : string) (m : nat) :
  substring (String.length p) m (p +:+ s) = substring 0 m s.
Proof.
  induction p as [|c p IH]; [reflexivity|].
  rewrite append_String. simpl. exact IH.
Qed.

Lemma substring_split (s : string) (k : nat) :
  k <= String.length s ->
  s = substring 0 k s +:+ substring k (String.length s - k) s.
Proof.
  revert k; induction s as [|c s IH]; intros k Hk; simpl in *.
  - destruct k; [reflexivity | lia].
  - destruct k as [|k]; simpl.
    + now rewrite substring_all.
    + rewrite append_String. f_equal. apply IH. lia.
Qed.

(** [endsWith] is what its name says. *)
Lemma endsWith_spec (s suffix : string) :
  endsWith s suffix = true <-> exists p, s = p +:+ suffix.
Proof.
  unfold endsWith. split.
  - destruct (Nat.leb_spec (String.length suffix) (String.length s)) as [Hle|Hlt];
      [|discriminate].
    intros H. apply String.eqb_eq in H.
    exists (substring 0 (String.length s - String.length suffix) s).
    pose proof (substring_split s (String.length s - String.length suffix)) as Hs.
    replace (String.length s - (String.length s - String.length suffix))
      with (String.length suffix) in Hs by lia.
    rewrite H in Hs. apply Hs. lia.
  - intros [p ->]. rewrite length_append.
    destruct (Nat.leb_spec (String.length suffix)
                (String.length p + String.length suffix)) as [_|Hlt]; [|lia].
    replace (String.length p + String.length suffix - String.length suffix)
      with (String.length p) by lia.
    rewrite substring_append_skip, substring_all. apply String.eqb_refl.
Qed.

(** The test of the source and the test in the specification's words agree. *)
Lemma isAeadCipher_spec (cipherAlias : string) :
  isAeadCipher cipherAlias = true <-> ends_in_aead_suffix cipherAlias.
Proof.
  unfold isAeadCipher, ends_in_aead_suffix.
  rewrite orb_true_iff, !endsWith_spec. reflexivity.
Qed.

Lemma tempFilename_fresh (filename stamp : string) :
  tempFilename filename stamp <> filename.
Proof.
  unfold tempFilename. intros H.
  apply (f_equal String.length) in H.
  rewrite !length_append in H. simpl in H. lia.
Qed.

Lemma toLowerCase_append (a b : string) :
  toLowerCase (a +:+ b) = toLowerCase a +:+ toLowerCase b.
Proof.
  induction a as [|c a IH]; [reflexivity|].
  rewrite append_String. cbn [toLowerCase]. rewrite append_String.
  now rewrite IH.
Qed.

Lemma toLowerCase_length (s : string) :
  String.length (toLowerCase s) = String.length s.
Proof. induction s as [|c s IH]; simpl; [reflexivity | now rewrite IH]. Qed.

Lemma append_assoc (a b c : string) : (a +:+ b) +:+ c = a +:+ (b +:+ c).
Proof.
  induction a as [|x a IH]; [reflexivity|].
  rewrite !append_String. now rewrite IH.
Qed.

(** A lower-cased string splits where its source does. *)
Lemma toLowerCase_split (a : string) :
  forall s b,
    toLowerCase s = a +:+ b ->
    exists p e, s = p +:+ e /\ toLowerCase p = a /\ toLowerCase e = b.
Proof.
  induction a as [|x a IH]; intros s b H.
  - exists EmptyString, s. auto.
  - destruct s as [|c s]; [discriminate|].
    rewrite append_String in H. cbn [toLowerCase] in H.
    injection H as Hx H. destruct (IH s b H) as (p & e & -> & Hp & He).
    exists (String c p), e. rewrite append_String. cbn [toLowerCase].
    now rewrite Hx, Hp.
Qed.

(** ** Letter case *)

Lemma in_allUnits (c : ascii) : In c allUnits.
Proof.
  unfold allUnits. apply in_map_iff. exists (nat_of_ascii c).
  split; [apply ascii_nat_embedding|].
  apply in_seq. pose proof (nat_ascii_bounded c). lia.
Qed.

(** Checked on every pair of code units: two units are the same up to letter
    case exactly when the source's lower-casing makes them equal. *)
Lemma sameLetter_table :
  forallb (fun c => forallb (fun d =>
     Bool.eqb (sameLetter c d) (Ascii.eqb (lower_ascii c) (lower_ascii d)))
     allUnits) allUnits = true.
Proof. vm_compute. reflexivity. Qed.

Lemma sameLetter_lower (c d : ascii) :
  sameLetter c d = Ascii.eqb (lower_ascii c) (lower_ascii d).
Proof.
  pose proof sameLetter_table as H.
  rewrite forallb_forall in H. specialize (H c (in_allUnits c)).
  rewrite forallb_forall in H. specialize (H d (in_allUnits d)).
  now apply Bool.eqb_prop in H.
Qed.

(** [toLowerCase] identifies exactly the strings that are the same up to
    letter case. *)
Lemma equalIgnoringCase_lower (a : string) :
  forall b, equalIgnoringCase a b = String.eqb (toLowerCase a) (toLowerCase b).
Proof.
  induction a as [|c a IH]; intros [|d b]; simpl; try reflexivity.
  rewrite sameLetter_lower, IH. reflexivity.
Qed.

(** The test of the source accepts exactly the names that end, without
    regard to letter case, in one of the two suffixes. *)
Lemma isAeadCipher_names (cipherAlias : string) :
  isAeadCipher cipherAlias = true <-> namesAeadConstruction cipherAlias.
Proof.
  rewrite isAeadCipher_spec. unfold ends_in_aead_suffix, namesAeadConstruction.
  split.
  - intros [(p & H)|(p & H)]; apply toLowerCase_split in H;
      destruct H as (front & ending & -> & _ & He);
      exists front, ending; (split; [reflexivity|]);
      [left|right]; rewrite equalIgnoringCase_lower, He; reflexivity.
  - intros (front & ending & -> & [H|H]);
      rewrite equalIgnoringCase_lower in H; apply String.eqb_eq in H;
      rewrite toLowerCase_append, H; [left|right]; eauto.
Qed.

(** ** The loop over the credentials *)

Lemma emits_nil (s : Sys) : emits [] s = s.
Proof. destruct s; unfold emits; simpl. now rewrite app_nil_r. Qed.

Lemma emits_emit (e : Effect) (es : list Effect) (s : Sys) :
  emits es (emit e s) = emits (e :: es) s.
Proof. unfold emits, emit; simpl. now rewrite <- app_assoc. Qed.

Lemma for_keys_spec (accessKeys : list ShadowsocksAccessKey) :
  forall (keysJson : KeysJson) (s : Sys),
    for_keys accessKeys keysJson s =
    (Normal (mkKeysJson (keys keysJson ++ accepted accessKeys)),
     emits (rejectedLogs accessKeys) s).
Proof.
  induction accessKeys as [|key rest IH]; intros keysJson s.
  - simpl. unfold ret. rewrite emits_nil, app_nil_r. now destruct keysJson.
  - unfold accepted, rejectedLogs in *. simpl.
    destruct (isAeadCipher (cipher key)); simpl.
    + rewrite IH. unfold push; simpl. now rewrite <- app_assoc.
    + unfold bind, logging_error, modify. rewrite IH. now rewrite emits_emit.
Qed.

Lemma in_accepted (key : ShadowsocksAccessKey)
    (accessKeys : list ShadowsocksAccessKey) :
  In key (accepted accessKeys) <->
  In key accessKeys /\ isAeadCipher (cipher key) = true.
Proof. unfold accepted. apply filter_In. Qed.


(** ** The write of the configuration file *)

(** What [writeConfigFile] leaves behind, by the outcome of its two calls. *)
Lemma writeConfigFile_spec (accessKeys : list ShadowsocksAccessKey)
    (io : IoOutcome) (s : Sys) :
  let cfg := configFilename (this s) in
  let body := safeDump (mkKeysJson (accepted accessKeys)) in
  let r := fst (writeConfigFile accessKeys io s) in
  let s' := snd (writeConfigFile accessKeys io s) in
  this s' = this s /\ live s' = live s /\ launchErrors s' = launchErrors s /\
  nextPid s' = nextPid s /\ env s' = env s /\
  match io_mkdirp io, io_write io with
  | MkdirpThrows error, _ =>
      r = Rejected error /\ files s' = files s /\
      trace s' = trace s ++ rejectedLogs accessKeys
  | MkdirpDone, WriteDone stamp =>
      r = Fulfilled /\
      files s' = rename (tempFilename cfg stamp) cfg
                        (writeFile (tempFilename cfg stamp) body (files s)) /\
      trace s' = trace s ++ rejectedLogs accessKeys ++
                 [Mkdirp (dirname cfg); AtomicWrite cfg body]
  | MkdirpDone, TempWriteThrows stamp written error =>
      r = Rejected error /\
      files s' = match written with
                 | Some n => writeFile (tempFilename cfg stamp)
                                       (substring 0 n body) (files s)
                 | None => files s
                 end /\
      trace s' = trace s ++ rejectedLogs accessKeys ++ [Mkdirp (dirname cfg)]
  | MkdirpDone, RenameThrows stamp error =>
      r = Rejected error /\
      files s' = writeFile (tempFilename cfg stamp) body (files s) /\
      trace s' = trace s ++ rejectedLogs accessKeys ++ [Mkdirp (dirname cfg)]
  end.
Proof.
  unfold writeConfigFile, new_Promise, writeConfigFile_executor, bind.
  rewrite for_keys_spec. simpl.
  destruct io as [[|error] [stamp|stamp [n|] error'|stamp error']]; simpl;
    repeat split; rewrite <- ?app_assoc; reflexivity.
Qed.

Lemma rename_written (tmp cfg body : string) (fs : gmap string string) :
  rename tmp cfg (writeFile tmp body fs) !! cfg = Some body.
Proof.
  unfold rename, writeFile. rewrite lookup_insert_eq. apply lookup_insert_eq.
Qed.

(** ** Start *)

(** With a command that [spawn] accepts, [start] runs to its end. *)
Lemma start_spec (sp : SpawnOutcome) (s : Sys) :
  binaryFilename (this s) <> EmptyString ->
  let s' := snd (start sp s) in
  fst (start sp s) = Normal tt /\
  this s' = set_ssProcess (Some (nextPid s)) (this s) /\
  files s' = files s /\
  live s' = live s ++ match sp with Launched => [nextPid s] | LaunchFails _ => [] end /\
  nextPid s' = S (nextPid s) /\
  env s' = env s /\
  trace s' = trace s ++ startEffects (this s) (env s) (nextPid s).
Proof.
  intros Hbin.
  unfold start, bind, logging_info, modify, get_this, child_process_spawn.
  cbn [emit this env].
  destruct (binaryFilename (this s)) as [|c b] eqn:Hb; [congruence|].
  unfold startEffects. rewrite Hb.
  destruct sp; simpl; repeat split; rewrite <- ?app_assoc, ?app_nil_r;
    reflexivity.
Qed.

(** With an empty command [start] throws what [spawn] throws, after its own
    logging; nothing else has changed. *)
Lemma start_throws (sp : SpawnOutcome) (s : Sys) :
  binaryFilename (this s) = EmptyString ->
  start sp s = (Throw emptyCommandError, emits (startLogs (this s) (env s)) s).
Proof.
  intros Hbin.
  unfold start, bind, logging_info, modify, get_this, child_process_spawn.
  cbn [emit this env]. rewrite Hbin. unfold emits, startLogs. rewrite Hbin.
  unfold emit. cbn [this files live launchErrors nextPid env trace].
  rewrite <- !app_assoc. reflexivity.
Qed.

Lemma spawnRequests_app (a b : list Effect) :
  spawnRequests (a ++ b) = spawnRequests a ++ spawnRequests b.
Proof. apply omap_app. Qed.

Lemma killRequests_app (a b : list Effect) :
  killRequests (a ++ b) = killRequests a ++ killRequests b.
Proof. apply omap_app. Qed.

Lemma spawnRequests_rejectedLogs (accessKeys : list ShadowsocksAccessKey) :
  spawnRequests (rejectedLogs accessKeys) = [].
Proof.
  unfold rejectedLogs.
  induction (List.filter _ accessKeys) as [|key l IH]; [reflexivity | exact IH].
Qed.

Lemma killRequests_rejectedLogs (accessKeys : list ShadowsocksAccessKey) :
  killRequests (rejectedLogs accessKeys) = [].
Proof.
  unfold rejectedLogs.
  induction (List.filter _ accessKeys) as [|key l IH]; [reflexivity | exact IH].
Qed.

Lemma spawnRequests_startEffects (t : OutlineShadowsocksServer) (e : ProcessEnv)
    (pid : Pid) :
  spawnRequests (startEffects t e pid) = [(binaryFilename t, commandArguments t)].
Proof. reflexivity. Qed.

(** ** The callback of [update] *)

Lemma startThrows_false (t : OutlineShadowsocksServer) :
  startThrows t = false <->
  (ssProcess t = None -> binaryFilename t <> EmptyString).
Proof.
  unfold startThrows.
  destruct (ssProcess t), (binaryFilename t); split; intros H;
    try congruence; try (intros; congruence).
  exfalso. now apply H.
Qed.

Lemma startThrows_true (t : OutlineShadowsocksServer) :
  startThrows t = true <->
  ssProcess t = None /\ binaryFilename t = EmptyString.
Proof.
  unfold startThrows.
  destruct (ssProcess t), (binaryFilename t); split;
    try intros (? & ?); try discriminate; auto.
Qed.

Lemma update_then_spec (sp : SpawnOutcome) (s : Sys) :
  startThrows (this s) = false ->
  let s' := snd (update_then sp s) in
  fst (update_then sp s) =
    Normal (match ssProcess (this s) with
            | None => ReturnedPromise
            | Some _ => ReturnedUndefined
            end) /\
  files s' = files s /\ env s' = env s /\
  match ssProcess (this s) with
  | None =>
      this s' = set_ssProcess (Some (nextPid s)) (this s) /\
      live s' = live s ++ match sp with Launched => [nextPid s] | LaunchFails _ => [] end /\
      nextPid s' = S (nextPid s) /\
      trace s' = trace s ++ startEffects (this s) (env s) (nextPid s)
  | Some pid =>
      this s' = this s /\ live s' = live s /\ nextPid s' = nextPid s /\
      trace s' = trace s ++ [Kill pid "SIGHUP"]
  end.
Proof.
  intros Hst. unfold update_then, bind, get_this.
  destruct (ssProcess (this s)) as [pid|] eqn:Hp.
  - unfold modify, emit, ret. simpl. repeat split.
  - assert (binaryFilename (this s) <> EmptyString) as Hbin
      by (apply (proj1 (startThrows_false _) Hst); exact Hp).
    pose proof (start_spec sp s Hbin) as H. cbv zeta in H. cbv zeta.
    destruct (start sp s) as [[u|error] s1]; cbn [fst snd] in *;
      destruct H as (H1 & H2 & H3 & H4 & H5 & H6 & H7); [|discriminate].
    unfold ret. cbn [fst snd]. repeat split; assumption.
Qed.

Lemma update_then_throws (sp : SpawnOutcome) (s : Sys) :
  startThrows (this s) = true ->
  update_then sp s =
  (Throw emptyCommandError, emits (startLogs (this s) (env s)) s).
Proof.
  intros Hst. apply startThrows_true in Hst. destruct Hst as (Hp & Hbin).
  unfold update_then, bind, get_this. rewrite Hp.
  now rewrite (start_throws sp s Hbin).
Qed.

(** ** Update *)

(** A rejected write ends [update] on the spot. *)
Lemma update_rejected (accessKeys : list ShadowsocksAccessKey) (io : IoOutcome)
    (sp : SpawnOutcome) (s : Sys) :
  ioSucceeds io = false ->
  update accessKeys io sp s = writeConfigFile accessKeys io s.
Proof.
  intros Hio. unfold update.
  pose proof (writeConfigFile_spec accessKeys io s) as H. simpl in H.
  destruct (writeConfigFile accessKeys io s) as [r s1]. simpl in H.
  destruct H as (_ & _ & _ & _ & _ & H).
  unfold ioSucceeds in Hio.
  destruct (io_mkdirp io), (io_write io); try discriminate;
    destruct H as (-> & _); reflexivity.
Qed.

(** A write that ends well is followed by the start when there is no handle
    and by the reload signal when there is one. *)
Lemma update_fulfilled (accessKeys : list ShadowsocksAccessKey) (io : IoOutcome)
    (sp : SpawnOutcome) (s : Sys) (stamp : string) :
  io_mkdirp io = MkdirpDone -> io_write io = WriteDone stamp ->
  startThrows (this s) = false ->
  let cfg := configFilename (this s) in
  let body := safeDump (mkKeysJson (accepted accessKeys)) in
  let s' := snd (update accessKeys io sp s) in
  fst (update accessKeys io sp s) = Fulfilled /\
  files s' = rename (tempFilename cfg stamp) cfg
                    (writeFile (tempFilename cfg stamp) body (files s)) /\
  env s' = env s /\
  match ssProcess (this s) with
  | None =>
      this s' = set_ssProcess (Some (nextPid s)) (this s) /\
      live s' = live s ++ match sp with Launched => [nextPid s] | LaunchFails _ => [] end /\
      nextPid s' = S (nextPid s) /\
      trace s' = trace s ++ rejectedLogs accessKeys ++
                 [Mkdirp (dirname cfg); AtomicWrite cfg body] ++
                 startEffects (this s) (env s) (nextPid s)
  | Some pid =>
      this s' = this s /\ live s' = live s /\ nextPid s' = nextPid s /\
      trace s' = trace s ++ rejectedLogs accessKeys ++
                 [Mkdirp (dirname cfg); AtomicWrite cfg body; Kill pid "SIGHUP"]
  end.
Proof.
  intros Hm Hw Hst. unfold update.
  pose proof (writeConfigFile_spec accessKeys io s) as H. simpl in H.
  destruct (writeConfigFile accessKeys io s) as [r s1]. simpl in H.
  rewrite Hm, Hw in H.
  destruct H as (Ht & Hl & He & Hn & Henv & -> & Hf & Htr).
  rewrite <- Ht in Hst.
  pose proof (update_then_spec sp s1 Hst) as H. cbv zeta in H.
  unfold run_callback.
  destruct (update_then sp s1) as [[u|error] s2]; cbn [fst snd] in *;
    destruct H as (H1 & H2 & H3 & H4); [|discriminate].
  rewrite Ht in H4. rewrite H2, H3, Hf, Henv.
  destruct (ssProcess (this s)) as [pid|];
    destruct H4 as (H5 & H6 & H7 & H8);
    rewrite H5, H6, H7, H8, ?Ht, ?Hl, ?Hn, ?Henv, Htr, <- !app_assoc;
    repeat split.
Qed.

(** A write that ends well, no handle, and a command that [spawn] refuses:
    the callback throws, and the promise of [update] is rejected although the
    file is written. *)
Lemma update_start_throws (accessKeys : list ShadowsocksAccessKey)
    (io : IoOutcome) (sp : SpawnOutcome) (s : Sys) (stamp : string) :
  io_mkdirp io = MkdirpDone -> io_write io = WriteDone stamp ->
  startThrows (this s) = true ->
  let cfg := configFilename (this s) in
  let body := safeDump (mkKeysJson (accepted accessKeys)) in
  let s' := snd (update accessKeys io sp s) in
  fst (update accessKeys io sp s) = Rejected emptyCommandError /\
  files s' = rename (tempFilename cfg stamp) cfg
                    (writeFile (tempFilename cfg stamp) body (files s)) /\
  env s' = env s /\ this s' = this s /\ live s' = live s /\
  nextPid s' = nextPid s /\
  trace s' = trace s ++ rejectedLogs accessKeys ++
             [Mkdirp (dirname cfg); AtomicWrite cfg body] ++
             startLogs (this s) (env s).
Proof.
  intros Hm Hw Hst. unfold update.
  pose proof (writeConfigFile_spec accessKeys io s) as H. simpl in H.
  destruct (writeConfigFile accessKeys io s) as [r s1]. simpl in H.
  rewrite Hm, Hw in H.
  destruct H as (Ht & Hl & He & Hn & Henv & -> & Hf & Htr).
  rewrite <- Ht in Hst. unfold run_callback.
  rewrite (update_then_throws sp s1 Hst). unfold emits. cbn.
  rewrite Ht, Henv, Htr, <- !app_assoc. repeat split; assumption.
Qed.

Lemma ioSucceeds_true (io : IoOutcome) :
  ioSucceeds io = true ->
  io_mkdirp io = MkdirpDone /\ exists stamp, io_write io = WriteDone stamp.
Proof.
  unfold ioSucceeds. destruct (io_mkdirp io), (io_write io); try discriminate.
  eauto.
Qed.

Lemma ioError_None (io : IoOutcome) : ioError io = None <-> ioSucceeds io = true.
Proof.
  unfold ioError, ioSucceeds.
  destruct (io_mkdirp io), (io_write io); split; intros; congruence.
Qed.

Lemma writeConfigFile_outcome (accessKeys : list ShadowsocksAccessKey)
    (io : IoOutcome) (s : Sys) :
  fst (writeConfigFile accessKeys io s) = writeOutcome io.
Proof.
  pose proof (writeConfigFile_spec accessKeys io s) as H. cbv zeta in H.
  destruct H as (_ & _ & _ & _ & _ & H). unfold writeOutcome, ioError.
  destruct (io_mkdirp io), (io_write io); destruct H as (-> & _); reflexivity.
Qed.

(** How the promise of [update] ends. *)
Lemma update_outcome (accessKeys : list ShadowsocksAccessKey) (io : IoOutcome)
    (sp : SpawnOutcome) (s : Sys) :
  fst (update accessKeys io sp s) =
  match ioError io with
  | Some error => Rejected error
  | None => if startThrows (this s) then Rejected emptyCommandError
            else Fulfilled
  end.
Proof.
  destruct (ioSucceeds io) eqn:Hio.
  - destruct (ioSucceeds_true io Hio) as (Hm & stamp & Hw).
    apply ioError_None in Hio. rewrite Hio.
    destruct (startThrows (this s)) eqn:Hst.
    + now destruct (update_start_throws accessKeys io sp s stamp Hm Hw Hst).
    + now destruct (update_fulfilled accessKeys io sp s stamp Hm Hw Hst).
  - rewrite update_rejected by assumption.
    rewrite writeConfigFile_outcome. unfold writeOutcome.
    destruct (ioError io) eqn:He; [reflexivity|].
    apply ioError_None in He. congruence.
Qed.

(** The file named by [configFilename] after an [update]: the new body when
    the write ended well, what it held before otherwise. *)
Lemma update_artifact (accessKeys : list ShadowsocksAccessKey) (io : IoOutcome)
    (sp : SpawnOutcome) (s : Sys) :
  files (snd (update accessKeys io sp s)) !! configFilename (this s) =
  if ioSucceeds io
  then Some (safeDump (mkKeysJson (accepted accessKeys)))
  else files s !! configFilename (this s).
Proof.
  destruct (ioSucceeds io) eqn:Hio.
  - destruct (ioSucceeds_true io Hio) as (Hm & stamp & Hw).
    destruct (startThrows (this s)) eqn:Hst.
    + destruct (update_start_throws accessKeys io sp s stamp Hm Hw Hst)
        as (_ & -> & _). apply rename_written.
    + destruct (update_fulfilled accessKeys io sp s stamp Hm Hw Hst)
        as (_ & -> & _). apply rename_written.
  - rewrite update_rejected by assumption.
    pose proof (writeConfigFile_spec accessKeys io s) as H. cbv zeta in H.
    destruct H as (_ & _ & _ & _ & _ & H).
    unfold ioSucceeds in Hio.
    destruct (io_mkdirp io), (io_write io) as [stamp|stamp [n|] err|stamp err];
      try discriminate; destruct H as (_ & -> & _); try reflexivity;
      unfold writeFile; apply lookup_insert_ne, tempFilename_fresh.
Qed.


(** ** Order of the credentials *)

Lemma filter_cons_inv {A} (f : A -> bool) (l : list A) (x : A) (r : list A) :
  List.filter f l = x :: r ->
  exists l1 l2, l = l1 ++ x :: l2 /\ List.filter f l1 = [] /\
                f x = true /\ List.filter f l2 = r.
Proof.
  induction l as [|a l IH]; simpl; [discriminate|].
  destruct (f a) eqn:Ha; intros H.
  - injection H as Hax Hr. subst a r. exists [], l. auto.
  - destruct (IH H) as (l1 & l2 & -> & H1 & Hx & H2).
    exists (a :: l1), l2. simpl. rewrite Ha. auto.
Qed.

Lemma filter_app_inv {A} (f : A -> bool) (a b : list A) :
  forall l, List.filter f l = a ++ b ->
  exists la lb, l = la ++ lb /\ List.filter f la = a /\ List.filter f lb = b.
Proof.
  induction a as [|x a IH]; intros l H.
  - exists [], l. auto.
  - simpl in H. apply filter_cons_inv in H.
    destruct H as (l1 & l2 & -> & H1 & Hx & H2).
    destruct (IH l2 H2) as (la & lb & -> & Ha & Hb).
    exists (l1 ++ x :: la), lb. split; [now rewrite <- app_assoc|].
    split; [|exact Hb].
    rewrite List.filter_app, H1. simpl. now rewrite Hx, Ha.
Qed.

(** Filtering keeps the relative order, and invents none. *)
Lemma before_filter {A} (f : A -> bool) (x y : A) (l : list A) :
  before x y (List.filter f l) <->
  before x y l /\ f x = true /\ f y = true.
Proof.
  unfold before. split.
  - intros (l1 & l2 & l3 & H).
    apply filter_app_inv in H. destruct H as (la & lb & -> & _ & H).
    apply filter_cons_inv in H. destruct H as (m1 & m2 & -> & _ & Hx & H).
    apply filter_app_inv in H. destruct H as (n1 & n2 & -> & _ & H).
    apply filter_cons_inv in H. destruct H as (o1 & o2 & -> & _ & Hy & _).
    split; [|auto].
    exists (la ++ m1), (n1 ++ o1), o2. now rewrite <- !app_assoc.
  - intros ((l1 & l2 & l3 & ->) & Hx & Hy).
    exists (List.filter f l1), (List.filter f l2), (List.filter f l3).
    rewrite List.filter_app. simpl. rewrite Hx, List.filter_app. simpl.
    now rewrite Hy.
Qed.

(** ** The artifact determines the key list *)

(** Cutting at the first line feed. *)
Lemma cut_at_newline (a : string) :
  forall b x y,
    hasNewline a = false -> hasNewline b = false ->
    a +:+ newline +:+ x = b +:+ newline +:+ y -> a = b /\ x = y.
Proof.
  induction a as [|c a IH]; intros [|d b] x y Ha Hb H.
  - injection H as H. auto.
  - injection H as Hc _. subst d. simpl in Hb. discriminate.
  - injection H as Hc _. subst c. simpl in Ha. discriminate.
  - rewrite !append_String in H. injection H as -> H.
    simpl in Ha, Hb. apply orb_false_iff in Ha, Hb.
    destruct (IH b x y (proj2 Ha) (proj2 Hb) H) as (-> & ->). auto.
Qed.

Lemma plain_units_no_newline (s : string) :
  forallb isPlainUnit (list_ascii_of_string s) = true -> hasNewline s = false.
Proof.
  induction s as [|c s IH]; simpl; [reflexivity|].
  intros H. apply andb_true_iff in H. destruct H as (Hc & Hs).
  rewrite (IH Hs), orb_false_r.
  destruct (Ascii.eqb_spec c (ascii_of_nat 10)) as [->|]; [discriminate | reflexivity].
Qed.

Lemma isPlain_no_newline (s : string) :
  isPlain s = true -> hasNewline s = false.
Proof.
  destruct s as [|c s]; [discriminate|]. unfold isPlain.
  intros H. apply andb_true_iff in H. now apply plain_units_no_newline.
Qed.

Lemma pretty_N_go_no_newline (x : N) :
  forall s, hasNewline s = false -> hasNewline (pretty_N_go x s) = false.
Proof.
  induction (N.lt_wf_0 x) as [x _ IH]; intros s Hs.
  assert (x = 0 \/ 0 < x)%N as [->|Hx] by lia.
  - now rewrite pretty_N_go_0.
  - rewrite pretty_N_go_step by exact Hx. apply IH.
    + now apply N.div_lt.
    + simpl. rewrite Hs, orb_false_r. unfold pretty_N_char.
      repeat case_match; reflexivity.
Qed.

Lemma pretty_N_no_newline (n : N) : hasNewline (pretty n) = false.
Proof.
  unfold pretty, pretty_N. case_decide; [reflexivity|].
  now apply pretty_N_go_no_newline.
Qed.

(** The body of a single-quoted scalar ends at the first quote that is not
    doubled. *)
Lemma escapeSingle_cut (a : string) :
  forall b x y,
    escapeSingle a +:+ "'" +:+ newline +:+ x =
    escapeSingle b +:+ "'" +:+ newline +:+ y -> a = b /\ x = y.
Proof.
  induction a as [|c a IH]; intros [|d b] x y; cbn.
  - intros [= H]. auto.
  - destruct (Ascii.eqb_spec d "'"%char) as [->|Hd]; cbn;
      intros [= H]; try discriminate; congruence.
  - destruct (Ascii.eqb_spec c "'"%char) as [->|Hc]; cbn;
      intros [= H]; try discriminate; congruence.
  - destruct (Ascii.eqb_spec c "'"%char) as [->|Hc],
             (Ascii.eqb_spec d "'"%char) as [->|Hd]; cbn.
    + intros [= H]. destruct (IH b x y H) as (-> & ->). auto.
    + intros [= H]. congruence.
    + intros [= H]. congruence.
    + intros [= Hcd H]. destruct (IH b x y H) as (-> & ->). subst. auto.
Qed.

Lemma writeScalar_Str_cut (a b x y : string) :
  writeScalar (Str a) +:+ newline +:+ x = writeScalar (Str b) +:+ newline +:+ y ->
  a = b /\ x = y.
Proof.
  unfold writeScalar.
  destruct (isPlain a) eqn:Ha, (isPlain b) eqn:Hb.
  - apply cut_at_newline; now apply isPlain_no_newline.
  - destruct a as [|c a]; [discriminate|]. unfold isPlain in Ha.
    apply andb_true_iff in Ha. destruct Ha as (Hc & _).
    rewrite !append_String. intros [= -> _]. discriminate.
  - destruct b as [|c b]; [discriminate|]. unfold isPlain in Hb.
    apply andb_true_iff in Hb. destruct Hb as (Hc & _).
    rewrite !append_String. intros [= <- _]. discriminate.
  - rewrite !append_String, !append_assoc. intros [= H].
    now apply escapeSingle_cut.
Qed.

Lemma writeScalar_Num_cut (a b : N) (x y : string) :
  writeScalar (Num a) +:+ newline +:+ x = writeScalar (Num b) +:+ newline +:+ y ->
  a = b /\ x = y.
Proof.
  unfold writeScalar. intros H.
  apply cut_at_newline in H; try apply pretty_N_no_newline.
  destruct H as (H & ->). split; [|reflexivity].
  now apply (inj pretty).
Qed.

Lemma sortKeys_fields (key : ShadowsocksAccessKey) :
  sortKeys (fields key) =
  [ ("cipher", Str (cipher key)); ("id", Str (id key));
    ("port", Num (port key)); ("secret", Str (secret key)) ].
Proof. reflexivity. Qed.

(** A record followed by the rest of the document, line by line. *)
Lemma dumpRecord_lines (key : ShadowsocksAccessKey) (rest : string) :
  dumpRecord key +:+ rest =
  "  - cipher: " +:+ (writeScalar (Str (cipher key)) +:+ newline +:+
  ("    id: " +:+ (writeScalar (Str (id key)) +:+ newline +:+
  ("    port: " +:+ (writeScalar (Num (port key)) +:+ newline +:+
  ("    secret: " +:+ (writeScalar (Str (secret key)) +:+ newline +:+
  rest))))))).
Proof.
  unfold dumpRecord. rewrite sortKeys_fields.
  unfold dumpField. cbn [map join fst snd].
  rewrite !append_assoc. reflexivity.
Qed.

Lemma dumpRecord_cut (k1 k2 : ShadowsocksAccessKey) (r1 r2 : string) :
  dumpRecord k1 +:+ r1 = dumpRecord k2 +:+ r2 -> k1 = k2 /\ r1 = r2.
Proof.
  rewrite !dumpRecord_lines. intros H.
  apply (inj (String.app _)) in H. apply writeScalar_Str_cut in H.
  destruct H as (Hc & H).
  apply (inj (String.app _)) in H. apply writeScalar_Str_cut in H.
  destruct H as (Hi & H).
  apply (inj (String.app _)) in H. apply writeScalar_Num_cut in H.
  destruct H as (Hp & H).
  apply (inj (String.app _)) in H. apply writeScalar_Str_cut in H.
  destruct H as (Hs & H).
  split; [|exact H]. destruct k1, k2; simpl in *. congruence.
Qed.

Lemma append_empty_r (a : string) : a +:+ EmptyString = a.
Proof.
  induction a as [|c a IH]; [reflexivity|]. rewrite append_String. now rewrite IH.
Qed.

Lemma concat_cons (x : string) (xs : list string) :
  String.concat EmptyString (x :: xs) = x +:+ String.concat EmptyString xs.
Proof.
  destruct xs as [|y xs]; [symmetry; apply append_empty_r | reflexivity].
Qed.

Lemma dumpRecords_inj (ks1 : list ShadowsocksAccessKey) :
  forall ks2,
    String.concat EmptyString (map dumpRecord ks1) =
    String.concat EmptyString (map dumpRecord ks2) -> ks1 = ks2.
Proof.
  induction ks1 as [|k1 ks1 IH]; intros [|k2 ks2]; cbn [map];
    rewrite ?concat_cons, ?dumpRecord_lines.
  - reflexivity.
  - discriminate.
  - discriminate.
  - rewrite <- !dumpRecord_lines. intros H.
    apply dumpRecord_cut in H. destruct H as (-> & H).
    now rewrite (IH ks2 H).
Qed.

(** Two key lists with the same serialization are the same list. *)
Lemma safeDump_inj (keysJson1 keysJson2 : KeysJson) :
  safeDump keysJson1 = safeDump keysJson2 -> keysJson1 = keysJson2.
Proof.
  destruct keysJson1 as [ks1], keysJson2 as [ks2]. unfold safeDump. cbn [keys].
  destruct ks1 as [|k1 ks1], ks2 as [|k2 ks2].
  - reflexivity.
  - discriminate.
  - discriminate.
  - intros H. apply (inj (String.app _)) in H.
    apply (inj (String.app _)) in H.
    now rewrite (dumpRecords_inj _ _ H).
Qed.

(** ** The claims about the configuration artifact *)

(** A write that ends well is in the log, whatever the callback does. *)
Lemma update_written (accessKeys : list ShadowsocksAccessKey) (io : IoOutcome)
    (sp : SpawnOutcome) (s : Sys) :
  ioSucceeds io = true ->
  In (AtomicWrite (configFilename (this s))
                  (safeDump (mkKeysJson (accepted accessKeys))))
     (trace (snd (update accessKeys io sp s))).
Proof.
  intros Hio. destruct (ioSucceeds_true io Hio) as (Hm & stamp & Hw).
  destruct (startThrows (this s)) eqn:Hst.
  - destruct (update_start_throws accessKeys io sp s stamp Hm Hw Hst)
      as (_ & _ & _ & _ & _ & _ & ->).
    rewrite !in_app_iff. right; right; left. simpl. auto.
  - destruct (update_fulfilled accessKeys io sp s stamp Hm Hw Hst)
      as (_ & _ & _ & H).
    destruct (ssProcess (this s)); destruct H as (_ & _ & _ & ->);
      rewrite !in_app_iff; right; right; simpl; auto.
Qed.

(** C1: when the write ends well, the file named by [configFilename] holds the
    serialization of a key list to which a credential of the input belongs if
    and only if its cipher name ends in an ending that is, letter case set
    aside, [GCM] or [Poly1305]; the credentials with other cipher names are
    left out and the accepted ones are all written. *)
Theorem update_writes_exactly_the_aead_credentials
    (accessKeys : list ShadowsocksAccessKey) (io : IoOutcome)
    (sp : SpawnOutcome) (s : Sys) :
  ioSucceeds io = true ->
  (exists keysJson,
     files (snd (update accessKeys io sp s)) !! configFilename (this s)
       = Some (safeDump keysJson) /\
     In (AtomicWrite (configFilename (this s)) (safeDump keysJson))
        (trace (snd (update accessKeys io sp s)))) /\
  (forall keysJson,
     files (snd (update accessKeys io sp s)) !! configFilename (this s)
       = Some (safeDump keysJson) ->
     forall key, In key (keys keysJson) <->
                 In key accessKeys /\ namesAeadConstruction (cipher key)).
Proof.
  intros Hio. split.
  - exists (mkKeysJson (accepted accessKeys)). split.
    + now rewrite update_artifact, Hio.
    + now apply update_written.
  - intros keysJson Hfile key. rewrite update_artifact, Hio in Hfile.
    injection Hfile as Hfile. apply safeDump_inj in Hfile. subst keysJson.
    simpl. rewrite in_accepted, isAeadCipher_names. reflexivity.
Qed.

Lemma update_writes_exactly_the_aead_credentials_witness :
  ioSucceeds Sample.ioDone = true /\
  (exists keysJson,
     files (snd (update [Sample.keyA; Sample.keyB; Sample.keyC] Sample.ioDone
                        Launched Sample.fresh))
       !! configFilename (this Sample.fresh) = Some (safeDump keysJson) /\
     forall key, In key (keys keysJson) <->
                 In key [Sample.keyA; Sample.keyB; Sample.keyC] /\
                 namesAeadConstruction (cipher key)).
Proof.
  split; [reflexivity|].
  destruct (update_writes_exactly_the_aead_credentials
              [Sample.keyA; Sample.keyB; Sample.keyC] Sample.ioDone Launched
              Sample.fresh eq_refl) as ((keysJson & Hfile & _) & Hall).
  exists keysJson. split; [exact Hfile | exact (Hall keysJson Hfile)].
Defined.

(** C10: the key list of the written artifact is the input sequence with the
    rejected credentials taken out: two credentials stand in the artifact in
    the order in which they stand in the input; only the field names inside a
    record are sorted. *)
Theorem artifact_keeps_the_input_order
    (accessKeys : list ShadowsocksAccessKey) (io : IoOutcome)
    (sp : SpawnOutcome) (s : Sys) :
  ioSucceeds io = true ->
  (exists keysJson,
     files (snd (update accessKeys io sp s)) !! configFilename (this s)
       = Some (safeDump keysJson)) /\
  (forall keysJson,
     files (snd (update accessKeys io sp s)) !! configFilename (this s)
       = Some (safeDump keysJson) ->
     keys keysJson
       = List.filter (fun key => isAeadCipher (cipher key)) accessKeys /\
     (forall x y, before x y (keys keysJson) <->
                  before x y accessKeys /\
                  isAeadCipher (cipher x) = true /\
                  isAeadCipher (cipher y) = true)) /\
  (forall key, map fst (sortKeys (fields key))
               = ["cipher"; "id"; "port"; "secret"]).
Proof.
  intros Hio. split; [|split].
  - exists (mkKeysJson (accepted accessKeys)). now rewrite update_artifact, Hio.
  - intros keysJson Hfile. rewrite update_artifact, Hio in Hfile.
    injection Hfile as Hfile. apply safeDump_inj in Hfile. subst keysJson.
    split; [reflexivity|].
    intros x y. simpl. unfold accepted.
    apply (before_filter (fun key => isAeadCipher (cipher key))).
  - intros key. reflexivity.
Qed.

Lemma artifact_keeps_the_input_order_witness :
  ioSucceeds Sample.ioDone = true /\
  (exists keysJson,
     files (snd (update [Sample.keyC; Sample.keyB; Sample.keyA] Sample.ioDone
                        Launched Sample.fresh))
       !! configFilename (this Sample.fresh) = Some (safeDump keysJson) /\
     keys keysJson = [Sample.keyC; Sample.keyA]).
Proof.
  split; [reflexivity|].
  destruct (artifact_keeps_the_input_order
              [Sample.keyC; Sample.keyB; Sample.keyA] Sample.ioDone Launched
              Sample.fresh eq_refl) as ((keysJson & Hfile) & Hall & _).
  exists keysJson. split; [exact Hfile|].
  exact (proj1 (Hall keysJson Hfile)).
Defined.

(** C2, as stated, fails: the same two accepted credentials in the other
    order give another artifact. *)
Lemma permuted_credentials_change_the_artifact :
  ~ (forall (keys1 keys2 : list ShadowsocksAccessKey) (io : IoOutcome)
            (sp : SpawnOutcome) (s : Sys),
       Permutation keys1 keys2 -> ioSucceeds io = true ->
       files (snd (update keys1 io sp s)) !! configFilename (this s) =
       files (snd (update keys2 io sp s)) !! configFilename (this s)).
Proof.
  intros H.
  specialize (H [Sample.keyA; Sample.keyC] [Sample.keyC; Sample.keyA]
                Sample.ioDone Launched Sample.fresh
                (perm_swap _ _ _) eq_refl).
  rewrite !update_artifact in H. vm_compute in H. discriminate H.
Qed.

(** C2, amended: the key list of the artifact is built in the order of the
    input: it is the input sequence with the rejected credentials taken out,
    and it is not sorted.  So two updates, of whatever components and on
    whatever disks, serialize the same key list exactly when their inputs
    have the same accepted credentials in the same order, and two artifacts
    with the same bytes come from such inputs only. *)
Theorem artifact_lists_the_accepted_sequence
    (keys1 keys2 : list ShadowsocksAccessKey) (io1 io2 : IoOutcome)
    (sp1 sp2 : SpawnOutcome) (s1 s2 : Sys) :
  ioSucceeds io1 = true -> ioSucceeds io2 = true ->
  (exists keysJson1 keysJson2,
     files (snd (update keys1 io1 sp1 s1)) !! configFilename (this s1)
       = Some (safeDump keysJson1) /\
     files (snd (update keys2 io2 sp2 s2)) !! configFilename (this s2)
       = Some (safeDump keysJson2)) /\
  (forall keysJson1 keysJson2,
     files (snd (update keys1 io1 sp1 s1)) !! configFilename (this s1)
       = Some (safeDump keysJson1) ->
     files (snd (update keys2 io2 sp2 s2)) !! configFilename (this s2)
       = Some (safeDump keysJson2) ->
     keys keysJson1
       = List.filter (fun key => isAeadCipher (cipher key)) keys1 /\
     keys keysJson2
       = List.filter (fun key => isAeadCipher (cipher key)) keys2 /\
     (keysJson1 = keysJson2 <->
      List.filter (fun key => isAeadCipher (cipher key)) keys1 =
      List.filter (fun key => isAeadCipher (cipher key)) keys2)) /\
  (files (snd (update keys1 io1 sp1 s1)) !! configFilename (this s1) =
   files (snd (update keys2 io2 sp2 s2)) !! configFilename (this s2) ->
   List.filter (fun key => isAeadCipher (cipher key)) keys1 =
   List.filter (fun key => isAeadCipher (cipher key)) keys2).
Proof.
  intros H1 H2. rewrite !update_artifact, H1, H2. split; [|split].
  - eauto.
  - intros keysJson1 keysJson2 [= E1] [= E2].
    apply safeDump_inj in E1, E2. subst keysJson1 keysJson2.
    cbn [keys]. unfold accepted. repeat split; congruence.
  - intros [= E]. apply safeDump_inj in E. now injection E.
Qed.

Lemma artifact_lists_the_accepted_sequence_witness :
  exists keysJson1 keysJson2,
    files (snd (update [Sample.keyA; Sample.keyB; Sample.keyC] Sample.ioDone
                       Launched Sample.fresh))
      !! configFilename (this Sample.fresh) = Some (safeDump keysJson1) /\
    files (snd (update [Sample.keyC; Sample.keyA] Sample.ioDone Launched
                       Sample.running))
      !! configFilename (this Sample.running) = Some (safeDump keysJson2) /\
    keys keysJson1 = [Sample.keyA; Sample.keyC] /\
    keys keysJson2 = [Sample.keyC; Sample.keyA] /\
    keysJson1 <> keysJson2.
Proof.
  destruct (artifact_lists_the_accepted_sequence
              [Sample.keyA; Sample.keyB; Sample.keyC]
              [Sample.keyC; Sample.keyA]
              Sample.ioDone Sample.ioDone Launched Launched
              Sample.fresh Sample.running eq_refl eq_refl)
    as ((keysJson1 & keysJson2 & Hf1 & Hf2) & Hall & _).
  exists keysJson1, keysJson2.
  destruct (Hall keysJson1 keysJson2 Hf1 Hf2) as (Hk1 & Hk2 & Hiff).
  repeat split; try assumption.
  intros Heq. apply Hiff in Heq. discriminate Heq.
Defined.




(** C4: when the directory creation or the atomic write throws, the file
    named by [configFilename] holds what it held before and the promise
    returned by [update] is rejected with the error.  Whatever happens, that
    file holds either its old content or the whole new body, and the whole
    new body only when neither call throws. *)
Theorem failed_update_keeps_the_artifact
    (accessKeys : list ShadowsocksAccessKey) (io : IoOutcome)
    (sp : SpawnOutcome) (s : Sys) (error : JsError) :
  ioError io = Some error ->
  fst (update accessKeys io sp s) = Rejected error /\
  files (snd (update accessKeys io sp s)) !! configFilename (this s)
    = files s !! configFilename (this s) /\
  (forall io',
     files (snd (update accessKeys io' sp s)) !! configFilename (this s)
       = files s !! configFilename (this s) \/
     (ioError io' = None /\
      (startThrows (this s) = false ->
       fst (update accessKeys io' sp s) = Fulfilled) /\
      exists keysJson,
        keys keysJson
          = List.filter (fun key => isAeadCipher (cipher key)) accessKeys /\
        files (snd (update accessKeys io' sp s)) !! configFilename (this s)
          = Some (safeDump keysJson))).
Proof.
  intros Herr. split; [|split].
  - now rewrite update_outcome, Herr.
  - rewrite update_artifact.
    destruct (ioSucceeds io) eqn:Hio; [|reflexivity].
    apply ioError_None in Hio. congruence.
  - intros io'. rewrite update_artifact, update_outcome.
    destruct (ioSucceeds io') eqn:Hio; [right | now left].
    apply ioError_None in Hio. rewrite Hio. split; [reflexivity|].
    split; [now intros ->|].
    now exists (mkKeysJson (accepted accessKeys)).
Qed.

Lemma failed_update_keeps_the_artifact_witness :
  fst (update [Sample.keyA; Sample.keyB] Sample.ioTornWrite Launched Sample.fresh)
    = Rejected "ENOSPC: no space left" /\
  files (snd (update [Sample.keyA; Sample.keyB] Sample.ioTornWrite Launched
                     Sample.fresh)) !! configFilename (this Sample.fresh)
    = files Sample.fresh !! configFilename (this Sample.fresh).
Proof.
  destruct (failed_update_keeps_the_artifact
              [Sample.keyA; Sample.keyB] Sample.ioTornWrite Launched
              Sample.fresh "ENOSPC: no space left" eq_refl)
    as (H1 & H2 & _).
  split; [exact H1 | exact H2].
Defined.

(** ** The exit handler and the jobs of [update] *)

Lemma on_exit_spec (code : option Z) (signal : option string)
    (sp : SpawnOutcome) (s : Sys) :
  binaryFilename (this s) <> EmptyString ->
  let s' := exec (on_exit code signal sp) s in
  fst (on_exit code signal sp s) = Normal tt /\
  this s' = set_ssProcess (Some (nextPid s)) (this s) /\
  files s' = files s /\
  live s' = live s ++ match sp with Launched => [nextPid s] | LaunchFails _ => [] end /\
  nextPid s' = S (nextPid s) /\
  env s' = env s /\
  trace s' = trace s ++ exitLogs code signal ++
             startEffects (this s) (env s) (nextPid s).
Proof.
  intros Hbin. unfold exec, on_exit, bind, logging_info, modify.
  pose proof (start_spec sp
    (emit (LogInfo "Restarting")
       (emit (LogInfo ("outline-ss-server has exited with error. Code: " +:+
                       orNull (pretty <$> code) +:+ ", Signal: " +:+
                       orNull signal)) s)) Hbin) as H.
  cbv zeta in H. cbv zeta. cbn [fst snd] in *.
  destruct H as (H1 & H2 & H3 & H4 & H5 & H6 & H7).
  rewrite H1, H2, H3, H4, H5, H6, H7. simpl. rewrite <- !app_assoc.
  repeat split.
Qed.


Lemma updateStarts_true (io : IoOutcome) (t : OutlineShadowsocksServer) :
  updateStarts io t = true <->
  ioSucceeds io = true /\ ssProcess t = None /\ binaryFilename t <> EmptyString.
Proof.
  unfold updateStarts.
  destruct (ioSucceeds io), (ssProcess t), (binaryFilename t); simpl;
    split; try discriminate; try (intros (? & ? & ?); congruence);
    intros _; repeat split; discriminate.
Qed.

(** On an idle loop, the call of [update] and the job it queues are [update]
    run to the end of its callback.  The promise of [update] is settled by
    then, unless the callback started the child: it returned a promise then,
    and two more jobs are to run. *)
Lemma run_update (l : Loop) (accessKeys : list ShadowsocksAccessKey)
    (io : IoOutcome) (sp : SpawnOutcome) :
  idle l = true ->
  run [CallUpdate accessKeys io; RunJob sp] l =
  Some (mkLoop (snd (update accessKeys io sp (sys l)))
               (if updateStarts io (this (sys l))
                then [ResolveThenableJob (nextPromise l)] else [])
               (settled l ++
                if updateStarts io (this (sys l)) then []
                else [(nextPromise l, fst (update accessKeys io sp (sys l)))])
               (S (nextPromise l))).
Proof.
  unfold idle. intros Hidle. destruct (jobs l) eqn:Hj; [|discriminate].
  pose proof (writeConfigFile_outcome accessKeys io (sys l)) as Hout.
  pose proof (writeConfigFile_spec accessKeys io (sys l)) as Hspec.
  cbv zeta in Hspec. destruct Hspec as (Hthis & _).
  unfold run, step, update. rewrite Hj.
  destruct (writeConfigFile accessKeys io (sys l)) as [r s1].
  cbn [fst snd app] in *. subst r. unfold writeOutcome, updateStarts.
  destruct (ioError io) as [error|] eqn:Herr;
    cbn [fst snd app jobs sys settled nextPromise].
  - assert (ioSucceeds io = false) as ->.
    { destruct (ioSucceeds io) eqn:Hio; [|reflexivity].
      apply ioError_None in Hio. congruence. }
    reflexivity.
  - apply ioError_None in Herr. rewrite Herr. cbn [andb].
    rewrite <- Hthis. unfold run_callback.
    destruct (startThrows (this s1)) eqn:Hst.
    + rewrite (update_then_throws sp s1 Hst).
      apply startThrows_true in Hst. destruct Hst as (-> & ->).
      reflexivity.
    + pose proof (update_then_spec sp s1 Hst) as H. cbv zeta in H.
      destruct H as (H & _).
      destruct (update_then sp s1) as [[u|error] s2]; cbn [fst snd] in *;
        [|discriminate].
      injection H as ->.
      destruct (ssProcess (this s1)) eqn:Hp; [reflexivity|].
      pose proof (proj1 (startThrows_false _) Hst Hp) as Hbin.
      destruct (binaryFilename (this s1)); [congruence|].
      rewrite app_nil_r. reflexivity.
Qed.

Lemma run_app (evs1 evs2 : list Event) (l : Loop) :
  run (evs1 ++ evs2) l =
  match run evs1 l with Some l1 => run evs2 l1 | None => None end.
Proof.
  revert l. induction evs1 as [|ev evs1 IH]; intros l; simpl; [reflexivity|].
  destruct (step ev l); [apply IH | reflexivity].
Qed.

(** The [update] that starts the child, run until its promise is settled. *)
Lemma run_update_starting (l : Loop) (accessKeys : list ShadowsocksAccessKey)
    (io : IoOutcome) (sp sp2 sp3 : SpawnOutcome) :
  idle l = true -> updateStarts io (this (sys l)) = true ->
  run [CallUpdate accessKeys io; RunJob sp; RunJob sp2; RunJob sp3] l =
  Some (mkLoop (snd (update accessKeys io sp (sys l))) []
               (settled l ++ [(nextPromise l, Fulfilled)])
               (S (nextPromise l))).
Proof.
  intros Hidle Hst.
  change [CallUpdate accessKeys io; RunJob sp; RunJob sp2; RunJob sp3]
    with ([CallUpdate accessKeys io; RunJob sp] ++ [RunJob sp2; RunJob sp3]).
  rewrite run_app, (run_update l accessKeys io sp Hidle), Hst, app_nil_r.
  reflexivity.
Qed.


(** ** The supervision invariant *)

Lemma spawnRequests_startLogs (t : OutlineShadowsocksServer) (e : ProcessEnv) :
  spawnRequests (startLogs t e) = [].
Proof. reflexivity. Qed.

Lemma killRequests_startLogs (t : OutlineShadowsocksServer) (e : ProcessEnv) :
  killRequests (startLogs t e) = [].
Proof. reflexivity. Qed.

Lemma writeConfigFile_spawnRequests (accessKeys : list ShadowsocksAccessKey)
    (io : IoOutcome) (s : Sys) :
  spawnRequests (trace (snd (writeConfigFile accessKeys io s))) =
  spawnRequests (trace s).
Proof.
  pose proof (writeConfigFile_spec accessKeys io s) as H. cbv zeta in H.
  destruct H as (_ & _ & _ & _ & _ & H).
  destruct (io_mkdirp io), (io_write io); destruct H as (_ & _ & ->);
    rewrite !spawnRequests_app, spawnRequests_rejectedLogs; simpl;
    now rewrite ?app_nil_r.
Qed.

Lemma supervised_writeConfigFile (accessKeys : list ShadowsocksAccessKey)
    (io : IoOutcome) (s : Sys) :
  supervised s -> supervised (snd (writeConfigFile accessKeys io s)).
Proof.
  unfold supervised.
  pose proof (writeConfigFile_spawnRequests accessKeys io s) as Hsp.
  pose proof (writeConfigFile_spec accessKeys io s) as H. cbv zeta in H.
  destruct H as (-> & -> & _ & -> & _ & _). now rewrite Hsp.
Qed.

Lemma supervised_update_then (sp : SpawnOutcome) (s : Sys) :
  supervised s -> supervised (snd (update_then sp s)).
Proof.
  unfold supervised. destruct (startThrows (this s)) eqn:Hst.
  - rewrite (update_then_throws sp s Hst).
    apply startThrows_true in Hst. destruct Hst as (Hp & _).
    rewrite Hp. cbn [snd emits this live trace]. rewrite Hp.
    intros (-> & Hno). rewrite spawnRequests_app, Hno. auto.
  - pose proof (update_then_spec sp s Hst) as H. cbv zeta in H.
    destruct H as (_ & _ & _ & H).
    destruct (ssProcess (this s)) as [pid|] eqn:Hp.
    + destruct H as (-> & -> & -> & _). now rewrite Hp.
    + destruct H as (-> & -> & -> & _). intros (-> & _). simpl.
      split; [lia|]. split; [now apply startThrows_false|].
      destruct sp; auto.
Qed.

Lemma supervised_live (s : Sys) (pid : Pid) :
  supervised s -> pid ∈ live s ->
  ssProcess (this s) = Some pid /\ live s = [pid] /\ pid < nextPid s /\
  binaryFilename (this s) <> EmptyString.
Proof.
  unfold supervised. intros Hs Hin.
  destruct (ssProcess (this s)) as [p|].
  - destruct Hs as (Hp & Hbin & [Hl|Hl]); rewrite Hl in Hin.
    + now apply elem_of_nil in Hin.
    + apply list_elem_of_singleton in Hin. now subst p.
  - destruct Hs as (Hl & _). rewrite Hl in Hin. now apply elem_of_nil in Hin.
Qed.

Lemma supervised_on_exit (pid : Pid) (code : option Z) (signal : option string)
    (sp : SpawnOutcome) (s : Sys) :
  supervised s -> pid ∈ live s ->
  supervised (exec (on_exit code signal sp)
                   (set_live (filter (fun p => p ≠ pid) (live s)) s)).
Proof.
  intros Hs Hin.
  destruct (supervised_live s pid Hs Hin) as (_ & Hl & _ & Hbin).
  unfold supervised.
  pose proof (on_exit_spec code signal sp
                (set_live (filter (fun p => p ≠ pid) (live s)) s) Hbin) as H.
  cbv zeta in H. destruct H as (_ & -> & _ & -> & -> & _). simpl.
  split; [lia|]. split; [exact Hbin|].
  rewrite Hl, filter_cons, filter_nil. rewrite decide_False by auto.
  destruct sp; auto.
Qed.

Lemma supervised_emit (e : Effect) (s : Sys) :
  spawnRequest e = None -> supervised s -> supervised (emit e s).
Proof.
  unfold supervised. simpl. intros He.
  rewrite spawnRequests_app. simpl. fold (spawnRequest e). rewrite He.
  now rewrite app_nil_r.
Qed.

Lemma supervised_step (ev : Event) (l l' : Loop) :
  supervised (sys l) -> step ev l = Some l' -> supervised (sys l').
Proof.
  intros Hs. destruct ev; simpl.
  - intros [= <-]. exact Hs.
  - intros [= <-]. exact Hs.
  - intros [= <-]. exact Hs.
  - pose proof (supervised_writeConfigFile accessKeys io (sys l) Hs) as H.
    destruct (writeConfigFile accessKeys io (sys l)) as [r s1].
    intros [= <-]. exact H.
  - destruct (jobs l) as [|[promise [|reason]|promise|promise] rest];
      [discriminate|..].
    + pose proof (supervised_update_then sp (sys l) Hs) as H.
      destruct (update_then sp (sys l)) as [[[|]|error] s1];
        intros [= <-]; exact H.
    + intros [= <-]. exact Hs.
    + intros [= <-]. exact Hs.
    + intros [= <-]. exact Hs.
  - destruct (idle l); [|discriminate]. simpl. case_bool_decide; [|discriminate].
    pose proof (supervised_on_exit pid code signal sp (sys l) Hs H) as Hx.
    unfold exec in Hx.
    destruct (on_exit code signal sp
                (set_live (filter (fun p => p ≠ pid) (live (sys l))) (sys l)))
      as [[u|error] s1]; [|discriminate].
    intros [= <-]. exact Hx.
  - destruct (idle l); [|discriminate].
    destruct (launchErrorOf pid (sys l)); [|discriminate].
    intros [= <-]. apply supervised_emit; [reflexivity | exact Hs].
  - destruct (idle l); [|discriminate]. simpl. case_bool_decide; [|discriminate].
    intros [= <-]. apply supervised_emit; [reflexivity | exact Hs].
  - destruct (idle l); [|discriminate]. simpl. case_bool_decide; [|discriminate].
    intros [= <-]. apply supervised_emit; [reflexivity | exact Hs].
Qed.

Lemma supervised_run (evs : list Event) :
  forall l l', supervised (sys l) -> run evs l = Some l' -> supervised (sys l').
Proof.
  induction evs as [|ev evs IH]; intros l l' Hs; simpl.
  - intros [= <-]. exact Hs.
  - destruct (step ev l) as [l1|] eqn:Hstep; [|discriminate].
    apply IH. eapply supervised_step; eauto.
Qed.

Lemma supervised_boot (t : OutlineShadowsocksServer) (e : ProcessEnv)
    (fs : gmap string string) :
  ssProcess t = None -> supervised (sys (boot t e fs)).
Proof. intros H. unfold supervised. simpl. rewrite H. auto. Qed.

(** ** The argument list *)

Lemma commandArguments_shape (t : OutlineShadowsocksServer) :
  exists country asn verbosity,
    commandArguments t =
      ["-config"; configFilename t; "-metrics"; metricsLocation t] ++
      country ++ asn ++ verbosity ++
      (if isReplayProtectionEnabled t then ["--replay_history=10000"] else []) /\
    optionalPair "-ip_country_db" country /\
    optionalPair "-ip_asn_db" asn /\
    (verbosity = [] \/ verbosity = ["-verbose"]).
Proof.
  exists (match truthy (ipCountryFilename t) with
          | Some f => ["-ip_country_db"; f] | None => [] end),
         (match truthy (ipAsnFilename t) with
          | Some f => ["-ip_asn_db"; f] | None => [] end),
         (if verbose t then ["-verbose"] else []).
  unfold commandArguments, optionalPair, replayHistoryArgument.
  destruct (truthy (ipCountryFilename t)), (truthy (ipAsnFilename t)),
    (verbose t), (isReplayProtectionEnabled t); simpl; eauto 10.
Qed.

Lemma commandArguments_prefix (t : OutlineShadowsocksServer) :
  exists rest,
    commandArguments t =
    "-config" :: configFilename t :: "-metrics" :: metricsLocation t :: rest.
Proof.
  destruct (commandArguments_shape t) as (c & a & v & -> & _). simpl. eauto.
Qed.

(** ** What one turn does to the subprocess *)

Lemma on_exit_throws (code : option Z) (signal : option string)
    (sp : SpawnOutcome) (s : Sys) :
  binaryFilename (this s) = EmptyString ->
  fst (on_exit code signal sp s) = Throw emptyCommandError.
Proof.
  intros Hbin. unfold on_exit, bind, logging_info, modify.
  now rewrite start_throws by exact Hbin.
Qed.

(** A turn of the loop is of one of four kinds: it leaves the subprocess
    alone; it signals the handle; it starts the first child; it restarts
    after an exit. *)
Lemma step_cases (ev : Event) (l l' : Loop) :
  step ev l = Some l' ->
  exists added,
    trace (sys l') = trace (sys l) ++ added /\
    ((isOnExit ev = false /\
      (this (sys l') = this (sys l) \/
       this (sys l') = applyBuilderCall (this (sys l)) ev) /\
      ssProcess (this (sys l')) = ssProcess (this (sys l)) /\
      live (sys l') = live (sys l) /\
      nextPid (sys l') = nextPid (sys l) /\
      spawnRequests added = [] /\ spawnPids added = [] /\
      killRequests added = []) \/
     (exists sp pid,
        ev = RunJob sp /\
        ssProcess (this (sys l)) = Some pid /\
        this (sys l') = this (sys l) /\
        live (sys l') = live (sys l) /\
        nextPid (sys l') = nextPid (sys l) /\
        added = [Kill pid "SIGHUP"]) \/
     (exists sp,
        (ev = RunJob sp /\ ssProcess (this (sys l)) = None /\
         added = startEffects (this (sys l)) (env (sys l)) (nextPid (sys l)) /\
         live (sys l') =
           live (sys l) ++
           match sp with Launched => [nextPid (sys l)] | LaunchFails _ => [] end
         \/
         exists pid code signal,
           ev = OnExit pid code signal sp /\ pid ∈ live (sys l) /\
           added = exitLogs code signal ++
                   startEffects (this (sys l)) (env (sys l)) (nextPid (sys l)) /\
           live (sys l') =
             filter (fun p => p ≠ pid) (live (sys l)) ++
             match sp with Launched => [nextPid (sys l)] | LaunchFails _ => [] end) /\
        this (sys l') = set_ssProcess (Some (nextPid (sys l))) (this (sys l)) /\
        nextPid (sys l') = S (nextPid (sys l)))).
Proof.
  destruct ev; cbn [step].
  - intros [= <-]. exists []. rewrite app_nil_r. split; [reflexivity|].
    left. repeat split. now right.
  - intros [= <-]. exists []. rewrite app_nil_r. split; [reflexivity|].
    left. repeat split. now right.
  - intros [= <-]. exists []. rewrite app_nil_r. split; [reflexivity|].
    left. repeat split. now right.
  - pose proof (writeConfigFile_spec accessKeys io (sys l)) as H. cbv zeta in H.
    destruct (writeConfigFile accessKeys io (sys l)) as [r s1]. cbn [fst snd] in H.
    intros [= <-]. cbn [sys].
    destruct H as (Ht & Hl & _ & Hn & _ & H).
    rewrite Ht, Hl, Hn.
    assert (exists tail, trace s1 = trace (sys l) ++ rejectedLogs accessKeys ++ tail /\
                         spawnRequests tail = [] /\ spawnPids tail = [] /\
                         killRequests tail = []) as (tail & -> & H1 & H2 & H3).
    { destruct (io_mkdirp io), (io_write io); destruct H as (_ & _ & ->);
        first [ eexists; split; [reflexivity|]; repeat split
              | exists []; rewrite app_nil_r; repeat split ]. }
    eexists. split; [reflexivity|]. left.
    unfold spawnPids in *. rewrite spawnRequests_app, killRequests_app, omap_app.
    rewrite spawnRequests_rejectedLogs, killRequests_rejectedLogs, H1, H2, H3.
    repeat split; [now left|]. unfold rejectedLogs.
    induction (List.filter _ accessKeys) as [|k ks IH]; [reflexivity | exact IH].
  - destruct (jobs l) as [|[promise [|reason]|promise|promise] rest];
      [discriminate|..].
    + destruct (startThrows (this (sys l))) eqn:Hst.
      * rewrite (update_then_throws sp (sys l) Hst). intros [= <-].
        cbn [sys emits trace this live nextPid].
        eexists. split; [reflexivity|]. left. repeat split. now left.
      * pose proof (update_then_spec sp (sys l) Hst) as H. cbv zeta in H.
        destruct (update_then sp (sys l)) as [[u|error] s1]; cbn [fst snd] in H;
          destruct H as (Hn & _ & _ & H); [|discriminate].
        injection Hn as ->.
        destruct (ssProcess (this (sys l))) as [pid|] eqn:Hp.
        -- intros [= <-]. cbn [sys].
           destruct H as (Ht & Hl & Hnp & ->). eexists. split; [reflexivity|].
           right; left. exists sp, pid. repeat split; assumption.
        -- intros [= <-]. cbn [sys].
           destruct H as (Ht & Hl & Hnp & ->). eexists. split; [reflexivity|].
           right; right. exists sp. split; [|split; assumption].
           left. repeat split; assumption.
    + intros [= <-]. exists []. rewrite app_nil_r. split; [reflexivity|].
      left. repeat split. now left.
    + intros [= <-]. exists []. rewrite app_nil_r. split; [reflexivity|].
      left. repeat split. now left.
    + intros [= <-]. exists []. rewrite app_nil_r. split; [reflexivity|].
      left. repeat split. now left.
  - destruct (idle l); [|discriminate]. cbn [andb].
    case_bool_decide as Hin; [|discriminate].
    destruct (binaryFilename (this (sys l))) as [|c b] eqn:Hbin.
    { pose proof (on_exit_throws code signal sp
                    (set_live (filter (fun p => p ≠ pid) (live (sys l))) (sys l))
                    Hbin) as H.
      destruct (on_exit code signal sp
                  (set_live (filter (fun p => p ≠ pid) (live (sys l))) (sys l)))
        as [[u|error] s1]; cbn [fst] in H; discriminate. }
    assert (binaryFilename (this (sys l)) <> EmptyString) as Hne
      by (rewrite Hbin; discriminate).
    pose proof (on_exit_spec code signal sp
                  (set_live (filter (fun p => p ≠ pid) (live (sys l))) (sys l))
                  Hne) as H.
    cbv zeta in H. unfold exec in H.
    destruct (on_exit code signal sp
                (set_live (filter (fun p => p ≠ pid) (live (sys l))) (sys l)))
      as [[u|error] s1]; cbn [fst snd] in H; [|destruct H; discriminate].
    intros [= <-]. cbn [sys with_sys].
    destruct H as (_ & Ht & _ & Hl & Hn & _ & Htr).
    cbn [live trace this env nextPid set_live] in Ht, Hl, Hn, Htr.
    eexists. split; [exact Htr|]. right; right. exists sp.
    split; [|split; assumption]. right. exists pid, code, signal.
    repeat split; assumption.
  - destruct (idle l); [|discriminate].
    destruct (launchErrorOf pid (sys l)); [|discriminate].
    intros [= <-]. eexists. split; [reflexivity|]. left. repeat split.
    now left.
  - destruct (idle l); [|discriminate]. cbn [andb].
    case_bool_decide; [|discriminate].
    intros [= <-]. eexists. split; [reflexivity|]. left. repeat split.
    now left.
  - destruct (idle l); [|discriminate]. cbn [andb].
    case_bool_decide; [|discriminate].
    intros [= <-]. eexists. split; [reflexivity|]. left. repeat split.
    now left.
Qed.

(** The jobs are run oldest first, and what a turn queues goes to the end:
    a turn that runs a job takes the first one off, any other turn leaves
    the jobs that wait where they are. *)
Lemma step_jobs (ev : Event) (l l' : Loop) :
  step ev l = Some l' ->
  if isRunJob ev
  then exists job rest queued, jobs l = job :: rest /\ jobs l' = rest ++ queued
  else exists queued, jobs l' = jobs l ++ queued.
Proof.
  destruct ev; cbn [step isRunJob].
  - intros [= <-]. exists []. now rewrite app_nil_r.
  - intros [= <-]. exists []. now rewrite app_nil_r.
  - intros [= <-]. exists []. now rewrite app_nil_r.
  - destruct (writeConfigFile accessKeys io (sys l)) as [r s1].
    intros [= <-]. cbn [jobs]. eauto.
  - destruct (jobs l) as [|[promise [|reason]|promise|promise] rest];
      [discriminate|..].
    + destruct (update_then sp (sys l)) as [[[|]|error] s1]; intros [= <-];
        cbn [jobs]; eexists _, _, _; split; try reflexivity;
        now rewrite app_nil_r.
    + intros [= <-]. exists (ThenJob promise (Rejected reason)), rest, [].
      now rewrite app_nil_r.
    + intros [= <-]. eexists _, _, _. split; reflexivity.
    + intros [= <-]. exists (SettleJob promise), rest, [].
      now rewrite app_nil_r.
  - destruct (idle l && bool_decide (pid ∈ live (sys l))); [|discriminate].
    destruct (on_exit code signal sp _) as [[u|error] s1]; [|discriminate].
    intros [= <-]. exists []. now rewrite app_nil_r.
  - destruct (idle l); [|discriminate].
    destruct (launchErrorOf pid (sys l)); [|discriminate].
    intros [= <-]. exists []. now rewrite app_nil_r.
  - destruct (idle l && bool_decide (pid < nextPid (sys l))); [|discriminate].
    intros [= <-]. exists []. now rewrite app_nil_r.
  - destruct (idle l && bool_decide (pid < nextPid (sys l))); [|discriminate].
    intros [= <-]. exists []. now rewrite app_nil_r.
Qed.

(** The exit of a child is handled only when no job waits. *)
Lemma step_on_exit_idle (pid : Pid) (code : option Z) (signal : option string)
    (sp : SpawnOutcome) (l l' : Loop) :
  step (OnExit pid code signal sp) l = Some l' -> idle l = true.
Proof. cbn [step]. destruct (idle l); [reflexivity | discriminate]. Qed.

(** While a job waits, the handle stays what it is. *)
Lemma busy_step_keeps_handle (ev : Event) (l l' : Loop) (pid : Pid) :
  step ev l = Some l' -> idle l = false ->
  ssProcess (this (sys l)) = Some pid -> ssProcess (this (sys l')) = Some pid.
Proof.
  intros Hstep Hbusy Hp.
  destruct (step_cases ev l l' Hstep) as (added & _ & [H|[H|H]]).
  - destruct H as (_ & _ & -> & _). exact Hp.
  - destruct H as (sp & p & _ & _ & -> & _). exact Hp.
  - destruct H as (sp & [(_ & Hnone & _)|(p & code & signal & -> & _)] & _).
    + congruence.
    + apply step_on_exit_idle in Hstep. congruence.
Qed.

Lemma jobsRun_cons (ev : Event) (evs : list Event) :
  jobsRun (ev :: evs) = (if isRunJob ev then 1 else 0) + jobsRun evs.
Proof. unfold jobsRun. simpl. now destruct (isRunJob ev). Qed.

(** A job that waits behind [pre] is at the head of the queue once as many
    jobs have been run as [pre] has; until then no exit is handled, so the
    handle stays what it is. *)
Lemma pending_job (evs : list Event) :
  forall (l l' : Loop) (pre : list Job) (job : Job) (post : list Job),
    run evs l = Some l' ->
    jobs l = pre ++ job :: post ->
    jobsRun evs <= length pre ->
    (exists post', jobs l' = skipn (jobsRun evs) pre ++ job :: post') /\
    (forall pid, ssProcess (this (sys l)) = Some pid ->
                 ssProcess (this (sys l')) = Some pid) /\
    (exists between, trace (sys l') = trace (sys l) ++ between).
Proof.
  induction evs as [|ev evs IH]; intros l l' pre job post; cbn [run].
  - intros [= <-] Hj _. split; [|split].
    + exists post. exact Hj.
    + auto.
    + exists []. now rewrite app_nil_r.
  - destruct (step ev l) as [l1|] eqn:Hstep; [|discriminate].
    intros Hrun Hj Hn. rewrite jobsRun_cons in Hn |- *.
    assert (idle l = false) as Hbusy
      by (unfold idle; rewrite Hj; now destruct pre).
    destruct (step_cases ev l l1 Hstep) as (added & Htr & _).
    pose proof (step_jobs ev l l1 Hstep) as Hq.
    destruct (isRunJob ev).
    + destruct Hq as (job0 & rest & queued & Hj0 & Hj1).
      destruct pre as [|p pre]; [simpl in Hn; lia|].
      rewrite Hj in Hj0. simpl in Hj0. injection Hj0 as _ <-.
      rewrite <- app_assoc in Hj1. simpl in Hj1.
      destruct (IH l1 l' pre job (post ++ queued) Hrun Hj1) as (H1 & H2 & H3).
      { simpl in Hn. lia. }
      split; [exact H1|]. split.
      * intros pid Hp. apply H2. eapply busy_step_keeps_handle; eauto.
      * destruct H3 as (between & ->). rewrite Htr, <- app_assoc. eauto.
    + destruct Hq as (queued & Hj1). rewrite Hj, <- app_assoc in Hj1.
      simpl in Hj1.
      destruct (IH l1 l' pre job (post ++ queued) Hrun Hj1) as (H1 & H2 & H3).
      { simpl in Hn. lia. }
      split; [exact H1|]. split.
      * intros pid Hp. apply H2. eapply busy_step_keeps_handle; eauto.
      * destruct H3 as (between & ->). rewrite Htr, <- app_assoc. eauto.
Qed.

(** ** The claims about the subprocess *)

(** C5: in a component that has no subprocess handle yet, after any history, a
    call of [update] that is successful (the promise it returns is fulfilled,
    once its jobs have run) leaves exactly one start request in the whole
    log; its command is [binaryFilename] and its argument list begins with
    [-config <configFilename> -metrics <metricsLocation>]. *)
Theorem first_update_requests_one_start
    (evs : list Event) (t : OutlineShadowsocksServer) (e : ProcessEnv)
    (fs : gmap string string) (l : Loop)
    (accessKeys : list ShadowsocksAccessKey) (io : IoOutcome)
    (sp sp2 sp3 : SpawnOutcome) :
  ssProcess t = None ->
  run evs (boot t e fs) = Some l ->
  ssProcess (this (sys l)) = None ->
  idle l = true ->
  fst (update accessKeys io sp (sys l)) = Fulfilled ->
  exists l' rest,
    run [CallUpdate accessKeys io; RunJob sp; RunJob sp2; RunJob sp3] l
      = Some l' /\
    jobs l' = [] /\
    settled l' = settled l ++ [(nextPromise l, Fulfilled)] /\
    spawnRequests (trace (sys l')) =
      [(binaryFilename (this (sys l)),
        "-config" :: configFilename (this (sys l)) ::
        "-metrics" :: metricsLocation (this (sys l)) :: rest)].
Proof.
  intros Ht Hrun Hnone Hidle Hok.
  pose proof (supervised_run evs _ _ (supervised_boot t e fs Ht) Hrun) as Hs.
  unfold supervised in Hs. rewrite Hnone in Hs. destruct Hs as (_ & Hno).
  destruct (commandArguments_prefix (this (sys l))) as (rest & Hargs).
  rewrite update_outcome in Hok.
  destruct (ioError io) eqn:Hio; [discriminate|].
  destruct (startThrows (this (sys l))) eqn:Hst; [discriminate|].
  apply ioError_None in Hio.
  pose proof (proj1 (startThrows_false _) Hst Hnone) as Hbin.
  eexists _, rest. split.
  { apply run_update_starting; [exact Hidle|].
    apply updateStarts_true. auto. }
  cbn [jobs settled sys].
  destruct (ioSucceeds_true io Hio) as (Hm & stamp & Hw).
  destruct (update_fulfilled accessKeys io sp (sys l) stamp Hm Hw Hst)
    as (_ & _ & _ & H).
  rewrite Hnone in H. destruct H as (_ & _ & _ & ->).
  split; [reflexivity|]. split; [reflexivity|].
  rewrite !spawnRequests_app, Hno, spawnRequests_rejectedLogs. simpl.
  now rewrite Hargs.
Qed.

Lemma first_update_requests_one_start_witness :
  exists l' rest,
    run [CallUpdate [Sample.keyA; Sample.keyB] Sample.ioDone; RunJob Launched;
         RunJob Launched; RunJob Launched]
        (mkLoop (snd (update [Sample.keyB] Sample.ioNoDirectory Launched
                             Sample.fresh))
                [] [(0, Rejected "EACCES: permission denied, mkdir")] 1)
      = Some l' /\
    jobs l' = [] /\
    settled l' = [(0, Rejected "EACCES: permission denied, mkdir");
                  (1, Fulfilled)] /\
    spawnRequests (trace (sys l')) =
      [("/opt/outline-ss-server",
        "-config" :: "/opt/outline/config.yml" ::
        "-metrics" :: "127.0.0.1:9092" :: rest)].
Proof.
  apply (first_update_requests_one_start
           [CallUpdate [Sample.keyB] Sample.ioNoDirectory; RunJob Launched]
           Sample.server Sample.processEnv Sample.disk
           (mkLoop (snd (update [Sample.keyB] Sample.ioNoDirectory Launched
                                Sample.fresh))
                   [] [(0, Rejected "EACCES: permission denied, mkdir")] 1)
           [Sample.keyA; Sample.keyB] Sample.ioDone Launched Launched Launched);
    reflexivity.
Defined.

(** C6, as stated, fails: an [update] in a component that holds a handle
    sends no signal when its write fails. *)
Lemma update_with_a_handle_may_send_no_signal :
  ~ (forall (accessKeys : list ShadowsocksAccessKey) (io : IoOutcome)
            (sp : SpawnOutcome) (s : Sys) (pid : Pid),
       ssProcess (this s) = Some pid ->
       In (Kill pid "SIGHUP") (trace (snd (update accessKeys io sp s)))).
Proof.
  intros H.
  specialize (H [Sample.keyA] Sample.ioTornWrite Launched Sample.running 0
                eq_refl).
  rewrite update_rejected in H by reflexivity.
  vm_compute in H.
  repeat (destruct H as [H|H]; [discriminate H|]). exact H.
Qed.

(** C6, amended: an [update] is called, other calls and the jobs queued
    before it go in between, and then its own job runs.  The call itself
    requests no start and sends no signal; its job adds something to the log
    only when the write ended well, and the completed write of the new body
    stands in the log before it.  When the component holds a subprocess
    handle at the call, the job requests no start and keeps the handle: it
    sends [SIGHUP] to that handle when the write ended well, and nothing
    otherwise. *)
Theorem update_reloads_after_the_write
    (l l1 l2 l3 : Loop) (accessKeys : list ShadowsocksAccessKey)
    (io : IoOutcome) (between : list Event) (sp : SpawnOutcome) :
  step (CallUpdate accessKeys io) l = Some l1 ->
  run between l1 = Some l2 ->
  jobsRun between = length (jobs l) ->
  step (RunJob sp) l2 = Some l3 ->
  exists written meanwhile added,
    trace (sys l1) = trace (sys l) ++ written /\
    trace (sys l2) = trace (sys l1) ++ meanwhile /\
    trace (sys l3) = trace (sys l2) ++ added /\
    spawnRequests written = [] /\ killRequests written = [] /\
    (ioSucceeds io = false -> added = []) /\
    (ioSucceeds io = true ->
     exists keysJson,
       keys keysJson
         = List.filter (fun key => isAeadCipher (cipher key)) accessKeys /\
       In (AtomicWrite (configFilename (this (sys l))) (safeDump keysJson))
          written /\
       files (sys l1) !! configFilename (this (sys l))
         = Some (safeDump keysJson)) /\
    (forall pid,
       ssProcess (this (sys l)) = Some pid ->
       ssProcess (this (sys l3)) = Some pid /\
       spawnRequests added = [] /\
       killRequests added = if ioSucceeds io then [(pid, "SIGHUP")] else []).
Proof.
  intros Hcall Hrun Hcount Hjob.
  pose proof (writeConfigFile_outcome accessKeys io (sys l)) as Hout.
  pose proof (writeConfigFile_spec accessKeys io (sys l)) as Hspec.
  cbv zeta in Hspec.
  cbn [step] in Hcall.
  destruct (writeConfigFile accessKeys io (sys l)) as [r s1].
  cbn [fst snd] in Hout, Hspec. subst r. injection Hcall as <-.
  destruct Hspec as (Hthis & _ & _ & _ & _ & Hspec).
  destruct (pending_job between _ l2 (jobs l)
              (ThenJob (nextPromise l) (writeOutcome io)) [] Hrun eq_refl)
    as ((post' & Hjobs) & Hkeep & (meanwhile & Hmid)); [lia|].
  rewrite Hcount, skipn_all in Hjobs. cbn [app] in Hjobs.
  cbn [sys] in *.
  cbn [step] in Hjob. rewrite Hjobs in Hjob.
  assert (exists written,
             trace s1 = trace (sys l) ++ written /\
             spawnRequests written = [] /\ killRequests written = [] /\
             (ioSucceeds io = true ->
              In (AtomicWrite (configFilename (this (sys l)))
                    (safeDump (mkKeysJson (accepted accessKeys)))) written /\
              files s1 !! configFilename (this (sys l))
                = Some (safeDump (mkKeysJson (accepted accessKeys)))))
    as (written & Hw & Hws & Hwk & Hwritten).
  { unfold ioSucceeds.
    destruct (io_mkdirp io), (io_write io); destruct Hspec as (_ & Hf & ->);
      eexists; (split; [reflexivity|]);
      rewrite ?spawnRequests_app, ?killRequests_app,
        ?spawnRequests_rejectedLogs, ?killRequests_rejectedLogs;
      (split; [reflexivity|]); (split; [reflexivity|]);
      try discriminate.
    intros _. split.
    - rewrite in_app_iff. right. simpl. auto.
    - rewrite Hf. apply rename_written. }
  exists written, meanwhile.
  unfold writeOutcome in Hjob.
  destruct (ioError io) as [error|] eqn:Herr.
  - assert (ioSucceeds io = false) as Hio.
    { destruct (ioSucceeds io) eqn:Hio; [|reflexivity].
      apply ioError_None in Hio. congruence. }
    injection Hjob as <-. cbn [sys]. exists [].
    rewrite app_nil_r, Hio.
    repeat (split; [first [assumption | reflexivity | discriminate]|]).
    intros pid Hp. rewrite <- Hthis in Hp. auto.
  - apply ioError_None in Herr. destruct (Hwritten Herr) as (Hin & Hfile).
    assert (forall added : list Effect,
               (ioSucceeds io = true ->
                exists keysJson,
                  keys keysJson
                    = List.filter (fun key => isAeadCipher (cipher key))
                                  accessKeys /\
                  In (AtomicWrite (configFilename (this (sys l)))
                        (safeDump keysJson)) written /\
                  files s1 !! configFilename (this (sys l))
                    = Some (safeDump keysJson)) /\
               (ioSucceeds io = false -> added = [])) as Hcommon.
    { intros added. split; [|congruence]. intros _.
      now exists (mkKeysJson (accepted accessKeys)). }
    destruct (startThrows (this (sys l2))) eqn:Hst.
    + rewrite (update_then_throws sp (sys l2) Hst) in Hjob.
      injection Hjob as <-. cbn [sys emits trace this].
      eexists. split; [exact Hw|]. split; [exact Hmid|].
      split; [reflexivity|]. split; [exact Hws|]. split; [exact Hwk|].
      split; [intros; congruence|]. split; [apply (Hcommon [])|].
      intros pid Hp. rewrite <- Hthis in Hp. apply Hkeep in Hp.
      apply startThrows_true in Hst. destruct Hst as (Hnone & _). congruence.
    + pose proof (update_then_spec sp (sys l2) Hst) as H. cbv zeta in H.
      destruct (update_then sp (sys l2)) as [[u|error] s3]; cbn [fst snd] in H;
        destruct H as (Hu & _ & _ & H); [|discriminate].
      injection Hu as ->.
      destruct (ssProcess (this (sys l2))) as [p|] eqn:Hp2.
      * injection Hjob as <-. cbn [sys].
        destruct H as (Ht3 & _ & _ & ->).
        eexists. split; [exact Hw|]. split; [exact Hmid|].
        split; [reflexivity|]. split; [exact Hws|]. split; [exact Hwk|].
        split; [intros; congruence|]. split; [apply (Hcommon [])|].
        intros pid Hp. rewrite <- Hthis in Hp. apply Hkeep in Hp.
        rewrite Ht3, Hp2, Herr. injection Hp as ->. auto.
      * injection Hjob as <-. cbn [sys].
        destruct H as (_ & _ & _ & ->).
        eexists. split; [exact Hw|]. split; [exact Hmid|].
        split; [reflexivity|]. split; [exact Hws|]. split; [exact Hwk|].
        split; [intros; congruence|]. split; [apply (Hcommon [])|].
        intros pid Hp. rewrite <- Hthis in Hp. apply Hkeep in Hp. congruence.
Qed.

Lemma update_reloads_after_the_write_witness :
  exists added,
    step (CallUpdate [Sample.keyC] Sample.ioDone) Sample.afterFirstUpdate
      = Some Sample.reloadCalled /\
    run [CallEnableReplayProtection;
         CallUpdate [Sample.keyB] Sample.ioNoDirectory] Sample.reloadCalled
      = Some Sample.reloadWaiting /\
    step (RunJob Launched) Sample.reloadWaiting = Some Sample.reloadSent /\
    trace (sys Sample.reloadSent) = trace (sys Sample.reloadWaiting) ++ added /\
    spawnRequests added = [] /\
    killRequests added = [(0, "SIGHUP")].
Proof.
  assert (step (CallUpdate [Sample.keyC] Sample.ioDone) Sample.afterFirstUpdate
          = Some Sample.reloadCalled) as H1 by (vm_compute; reflexivity).
  assert (run [CallEnableReplayProtection;
               CallUpdate [Sample.keyB] Sample.ioNoDirectory]
              Sample.reloadCalled
          = Some Sample.reloadWaiting) as H2 by (vm_compute; reflexivity).
  assert (step (RunJob Launched) Sample.reloadWaiting = Some Sample.reloadSent)
    as H3 by (vm_compute; reflexivity).
  assert (jobsRun [CallEnableReplayProtection;
                   CallUpdate [Sample.keyB] Sample.ioNoDirectory]
          = length (jobs Sample.afterFirstUpdate)) as Hn by reflexivity.
  assert (ssProcess (this (sys Sample.afterFirstUpdate)) = Some 0) as Hp
    by (vm_compute; reflexivity).
  destruct (update_reloads_after_the_write
              Sample.afterFirstUpdate Sample.reloadCalled Sample.reloadWaiting
              Sample.reloadSent [Sample.keyC] Sample.ioDone
              [CallEnableReplayProtection;
               CallUpdate [Sample.keyB] Sample.ioNoDirectory] Launched
              H1 H2 Hn H3)
    as (written & meanwhile & added & _ & _ & Htr & _ & _ & _ & _ & Hh).
  exists added.
  destruct (Hh 0 Hp) as (_ & Hs & Hk).
  split; [exact H1|]. split; [exact H2|]. split; [exact H3|].
  split; [exact Htr|]. split; [exact Hs | exact Hk].
Defined.

Lemma commandArguments_set_ssProcess (p : option Pid)
    (t : OutlineShadowsocksServer) :
  commandArguments (set_ssProcess p t) = commandArguments t /\
  binaryFilename (set_ssProcess p t) = binaryFilename t.
Proof. split; reflexivity. Qed.



(** ** Builder calls *)

Lemma step_builder_call (ev : Event) (l : Loop) :
  isBuilderCall ev = true ->
  step ev l =
  Some (with_sys (set_this (applyBuilderCall (this (sys l)) ev) (sys l)) l).
Proof. destruct ev; try discriminate; reflexivity. Qed.

Lemma run_builder_calls (calls : list Event) :
  forall t e fs,
    forallb isBuilderCall calls = true ->
    run calls (boot t e fs) = Some (boot (fold_left applyBuilderCall calls t) e fs).
Proof.
  induction calls as [|ev calls IH]; intros t e fs Hall; [reflexivity|].
  simpl in Hall. apply andb_true_iff in Hall. destruct Hall as (Hev & Hall).
  cbn [run fold_left]. rewrite (step_builder_call ev _ Hev).
  exact (IH (applyBuilderCall t ev) e fs Hall).
Qed.

(** The builder calls touch only the optional settings. *)
Lemma builder_calls_spec (calls : list Event) :
  forall t,
    let t' := fold_left applyBuilderCall calls t in
    ssProcess t' = ssProcess t /\
    binaryFilename t' = binaryFilename t /\
    configFilename t' = configFilename t /\
    verbose t' = verbose t /\
    metricsLocation t' = metricsLocation t /\
    isReplayProtectionEnabled t' =
      isReplayProtectionEnabled t || existsb isEnableReplayProtection calls.
Proof.
  induction calls as [|ev calls IH]; intros t; cbn [fold_left existsb].
  - rewrite orb_false_r. repeat split.
  - specialize (IH (applyBuilderCall t ev)). cbv zeta in IH.
    destruct IH as (-> & -> & -> & -> & -> & ->).
    destruct ev; cbn; rewrite ?orb_true_r; repeat split.
Qed.

(** The command line that [start] logs before it calls [spawn]. *)
Lemma startLogs_command_line (t : OutlineShadowsocksServer) (e : ProcessEnv) :
  In (LogInfo (binaryFilename t +:+ " " +:+
               join " " (map (fun a => dquote +:+ a +:+ dquote)
                             (commandArguments t))))
     (startLogs t e).
Proof. unfold startLogs. simpl. auto. Qed.

Lemma startEffects_startLogs (t : OutlineShadowsocksServer) (e : ProcessEnv)
    (pid : Pid) :
  startEffects t e pid =
  startLogs t e ++ [Spawn pid (binaryFilename t) (commandArguments t);
                    PipeStdout pid; PipeStderr pid].
Proof. reflexivity. Qed.

(** C8: a component is constructed, receives builder calls and then its first
    [update], whose write ends well.  The argument list that [start] builds,
    logs and, unless the command is empty, hands to [spawn] in the one start
    request, carries the four fixed arguments, the optional ones, and at the
    end [--replay_history=10000] when [enableReplayProtection] was among the
    builder calls; when it was not, nothing stands in that place. *)
Theorem replay_history_argument_follows_the_builder_call
    (command config : string) (verbosely : bool)
    (metrics : string) (e : ProcessEnv) (fs : gmap string string)
    (calls : list Event) (accessKeys : list ShadowsocksAccessKey)
    (io : IoOutcome) (sp : SpawnOutcome) :
  forallb isBuilderCall calls = true ->
  ioSucceeds io = true ->
  exists l args country asn verbosity,
    run (calls ++ [CallUpdate accessKeys io; RunJob sp])
        (boot (new command config verbosely metrics) e fs)
      = Some l /\
    In (LogInfo (command +:+ " " +:+
                 join " " (map (fun a => dquote +:+ a +:+ dquote) args)))
       (trace (sys l)) /\
    spawnRequests (trace (sys l)) =
      match command with
      | EmptyString => []
      | String _ _ => [(command, args)]
      end /\
    args = ["-config"; config; "-metrics"; metrics] ++
           country ++ asn ++ verbosity ++
           (if existsb isEnableReplayProtection calls
            then ["--replay_history=10000"] else []) /\
    optionalPair "-ip_country_db" country /\
    optionalPair "-ip_asn_db" asn /\
    (verbosity = [] \/ verbosity = ["-verbose"]) /\
    (In CallEnableReplayProtection calls -> In "--replay_history=10000" args).
Proof.
  intros Hcalls Hio.
  set (t0 := new command config verbosely metrics).
  set (t := fold_left applyBuilderCall calls t0).
  pose proof (builder_calls_spec calls t0) as Ht. cbv zeta in Ht. fold t in Ht.
  destruct Ht as (Hp & Hbin & Hcfg & Hv & Hmet & Hrep).
  destruct (commandArguments_shape t) as (country & asn & verbosity & Hargs & Hc & Ha & Hvb).
  rewrite Hcfg, Hmet, Hrep in Hargs. cbn [t0 new configFilename metricsLocation
    isReplayProtectionEnabled orb] in Hargs.
  cbn [t0 new ssProcess binaryFilename] in Hp, Hbin.
  eexists _, (commandArguments t), country, asn, verbosity.
  split; [|split; [|split; [|split; [|split; [|split; [|split]]]]]];
    try assumption.
  - rewrite run_app, (run_builder_calls calls t0 e fs Hcalls). fold t.
    now rewrite run_update.
  - cbn [sys]. set (s0 := sys (boot t e fs)).
    destruct (ioSucceeds_true io Hio) as (Hm & stamp & Hw).
    pose proof (startLogs_command_line t e) as Hline. rewrite Hbin in Hline.
    destruct (startThrows (this s0)) eqn:Hst.
    + destruct (update_start_throws accessKeys io sp s0 stamp Hm Hw Hst)
        as (_ & _ & _ & _ & _ & _ & ->).
      rewrite !in_app_iff. do 3 right. exact Hline.
    + destruct (update_fulfilled accessKeys io sp s0 stamp Hm Hw Hst)
        as (_ & _ & _ & H).
      change (this s0) with t in H. rewrite Hp in H.
      destruct H as (_ & _ & _ & ->).
      rewrite startEffects_startLogs, !in_app_iff. do 3 right. left.
      exact Hline.
  - cbn [sys]. set (s0 := sys (boot t e fs)).
    destruct (ioSucceeds_true io Hio) as (Hm & stamp & Hw).
    destruct (startThrows (this s0)) eqn:Hst.
    + destruct (update_start_throws accessKeys io sp s0 stamp Hm Hw Hst)
        as (_ & _ & _ & _ & _ & _ & ->).
      apply startThrows_true in Hst. destruct Hst as (_ & Hb).
      change (this s0) with t in Hb. rewrite Hbin in Hb. rewrite Hb.
      rewrite !spawnRequests_app, spawnRequests_rejectedLogs,
        spawnRequests_startLogs. reflexivity.
    + destruct (update_fulfilled accessKeys io sp s0 stamp Hm Hw Hst)
        as (_ & _ & _ & H).
      pose proof (proj1 (startThrows_false _) Hst) as Hb.
      change (this s0) with t in H, Hb. rewrite Hp in H. rewrite Hbin in Hb.
      specialize (Hb Hp).
      destruct H as (_ & _ & _ & ->).
      rewrite !spawnRequests_app, spawnRequests_rejectedLogs,
        spawnRequests_startEffects, Hbin.
      destruct command; [congruence | reflexivity].
  - intros Hin. rewrite Hargs.
    assert (existsb isEnableReplayProtection calls = true) as ->.
    { apply existsb_exists. exists CallEnableReplayProtection. auto. }
    rewrite !in_app_iff. do 4 right. now left.
Qed.

Lemma replay_history_argument_follows_the_builder_call_witness :
  exists l args,
    run ([CallConfigureCountryMetrics "/var/lib/ip-country.mmdb";
          CallEnableReplayProtection] ++
         [CallUpdate [Sample.keyA] Sample.ioDone; RunJob Launched])
        (boot (new "/opt/outline-ss-server" "/opt/outline/config.yml" false
                   "127.0.0.1:9092") Sample.processEnv Sample.disk)
      = Some l /\
    spawnRequests (trace (sys l)) = [("/opt/outline-ss-server", args)] /\
    In "--replay_history=10000" args.
Proof.
  destruct (replay_history_argument_follows_the_builder_call
              "/opt/outline-ss-server" "/opt/outline/config.yml" false
              "127.0.0.1:9092" Sample.processEnv Sample.disk
              [CallConfigureCountryMetrics "/var/lib/ip-country.mmdb";
               CallEnableReplayProtection]
              [Sample.keyA] Sample.ioDone Launched eq_refl eq_refl)
    as (l & args & country & asn & verbosity & H1 & _ & H2 & _ & _ & _ & _ & H3).
  exists l, args. split; [exact H1 | split; [exact H2 |]].
  apply H3. simpl. auto.
Defined.

(** ** At most one subprocess *)

Lemma spawnRequests_emit (e : Effect) (s : Sys) :
  spawnRequest e = None ->
  spawnRequests (trace (emit e s)) = spawnRequests (trace s).
Proof.
  intros He. cbn [emit trace]. rewrite spawnRequests_app.
  unfold spawnRequests at 2. simpl. rewrite He. apply app_nil_r.
Qed.

(** A turn of the loop requests a start only in two situations: a job of
    [update] runs while there is no handle and nothing runs; or the exit of
    the one running child is handled. *)
Lemma step_start_request (ev : Event) (l l' : Loop) :
  supervised (sys l) ->
  step ev l = Some l' ->
  spawnRequests (trace (sys l')) = spawnRequests (trace (sys l)) \/
  ((exists sp, ev = RunJob sp) /\
   ssProcess (this (sys l)) = None /\ live (sys l) = []) \/
  (exists pid code signal sp,
     ev = OnExit pid code signal sp /\ live (sys l) = [pid]).
Proof.
  intros Hs Hstep.
  destruct (step_cases ev l l' Hstep) as (added & Htr & [H|[H|H]]).
  - left. destruct H as (_ & _ & _ & _ & _ & Hno & _).
    now rewrite Htr, spawnRequests_app, Hno, app_nil_r.
  - left. destruct H as (sp & pid & _ & _ & _ & _ & _ & ->).
    rewrite Htr, spawnRequests_app. apply app_nil_r.
  - right. destruct H as (sp & [(-> & Hnone & _)|(pid & code & signal & -> & Hin & _)] & _).
    + left. split; [eauto|]. split; [exact Hnone|].
      unfold supervised in Hs. rewrite Hnone in Hs. apply Hs.
    + right. exists pid, code, signal, sp. split; [reflexivity|].
      now destruct (supervised_live (sys l) pid Hs Hin) as (_ & Hl & _).
Qed.

(** C9: in every state the component reaches from its construction, by any
    sequence of calls, jobs and child events, at most one child is running.
    A turn that requests a start is either a job of [update] that finds no
    handle, and then nothing is running, or the handling of the exit of the
    one child that was running. *)
Theorem at_most_one_live_subprocess
    (evs : list Event) (t : OutlineShadowsocksServer) (e : ProcessEnv)
    (fs : gmap string string) (l : Loop) :
  ssProcess t = None ->
  run evs (boot t e fs) = Some l ->
  length (live (sys l)) <= 1 /\
  (forall ev l',
     step ev l = Some l' ->
     startsRequested (trace (sys l')) <> startsRequested (trace (sys l)) ->
     ((exists sp, ev = RunJob sp) /\
      ssProcess (this (sys l)) = None /\ live (sys l) = []) \/
     (exists pid code signal sp,
        ev = OnExit pid code signal sp /\ live (sys l) = [pid])).
Proof.
  intros Ht Hrun.
  pose proof (supervised_run evs _ _ (supervised_boot t e fs Ht) Hrun) as Hs.
  split.
  - unfold supervised in Hs. destruct (ssProcess (this (sys l))) as [p|].
    + destruct Hs as (_ & _ & [-> | ->]); simpl; lia.
    + destruct Hs as (-> & _). simpl; lia.
  - intros ev l' Hstep Hne.
    destruct (step_start_request ev l l' Hs Hstep) as [Heq|H]; [|exact H].
    exfalso. apply Hne. unfold startsRequested. now rewrite Heq.
Qed.

Lemma at_most_one_live_subprocess_witness :
  length (live (sys Sample.afterFirstUpdate)) <= 1.
Proof.
  assert (run [CallUpdate [Sample.keyA] Sample.ioDone; RunJob Launched;
               RunJob Launched; RunJob Launched]
              (boot Sample.server Sample.processEnv Sample.disk)
          = Some Sample.afterFirstUpdate) as Hrun by (vm_compute; reflexivity).
  exact (proj1 (at_most_one_live_subprocess
                  [CallUpdate [Sample.keyA] Sample.ioDone; RunJob Launched;
                   RunJob Launched; RunJob Launched]
                  Sample.server Sample.processEnv Sample.disk
                  Sample.afterFirstUpdate eq_refl Hrun)).
Defined.

(** ** Worked examples *)

Example isAeadCipher_any_case :
  map isAeadCipher ["AES-256-GCM"; "aes-256-gcm"; "Aes-256-Gcm"]
  = [true; true; true].
Proof. reflexivity. Qed.

Example isAeadCipher_others :
  map isAeadCipher ["rc4"; "aes-256-cfb"; "gcm-aes"; "cm"; "poly130"]
  = [false; false; false; false; false].
Proof. reflexivity. Qed.

Example dirname_samples :
  map dirname ["/opt/outline/config.yml"; "config.yml"; "/config.yml"; "/a/b/"]
  = ["/opt/outline"; "."; "/"; "/a"].
Proof. reflexivity. Qed.

(** One accepted and one rejected credential: the artifact holds the first
    and the log names the second and its cipher. *)
Example update_scenario :
  let s' := snd (update [Sample.keyA; Sample.keyB] Sample.ioDone Launched
                        Sample.fresh) in
  files s' !! "/opt/outline/config.yml"
    = Some (safeDump (mkKeysJson [Sample.keyA])) /\
  hd_error (trace s')
    = Some (LogError
              "Cipher rc4 for access key b is not supported: use an AEAD cipher instead.") /\
  live s' = [0].
Proof. vm_compute. repeat split. Qed.

Example safeDump_sample :
  safeDump (mkKeysJson [Sample.keyA]) =
  "keys:" +:+ newline +:+
  "  - cipher: chacha20-poly1305" +:+ newline +:+
  "    id: a" +:+ newline +:+
  "    port: 8388" +:+ newline +:+
  "    secret: s3cret" +:+ newline.
Proof. reflexivity. Qed.

(** The promise of the [update] that starts the child is settled two jobs
    after its callback has run; with an empty command the callback throws
    and the promise is rejected at once. *)
Example update_jobs :
  (jobs <$> run [CallUpdate [Sample.keyA] Sample.ioDone; RunJob Launched]
                (boot Sample.server Sample.processEnv Sample.disk))
    = Some [ResolveThenableJob 0] /\
  (settled <$> run [CallUpdate [Sample.keyA] Sample.ioDone; RunJob Launched;
                    RunJob Launched; RunJob Launched]
                   (boot Sample.server Sample.processEnv Sample.disk))
    = Some [(0, Fulfilled)] /\
  (settled <$> run [CallUpdate [Sample.keyA] Sample.ioDone; RunJob Launched]
                   (mkLoop Sample.noCommand [] [] 0))
    = Some [(0, Rejected emptyCommandError)].
Proof. vm_compute. repeat split. Qed.

(** * Further properties *)

(** ** The subprocess over a history *)

Lemma startsRequested_app (a b : list Effect) :
  startsRequested (a ++ b) = startsRequested a + length (spawnRequests b).
Proof.
  unfold startsRequested. now rewrite spawnRequests_app, length_app.
Qed.

Lemma spawnPids_startEffects (t : OutlineShadowsocksServer) (e : ProcessEnv)
    (pid : Pid) :
  spawnPids (startEffects t e pid) = [pid].
Proof. reflexivity. Qed.

Lemma spawnPids_exit (code : option Z) (signal : option string)
    (t : OutlineShadowsocksServer) (e : ProcessEnv) (pid : Pid) :
  spawnPids (exitLogs code signal ++ startEffects t e pid) = [pid] /\
  spawnRequests (exitLogs code signal ++ startEffects t e pid)
    = [(binaryFilename t, commandArguments t)] /\
  killRequests (exitLogs code signal ++ startEffects t e pid) = [].
Proof. repeat split. Qed.

(** X15: a turn that is neither a job of [update] nor the handling of an exit
    (a builder call, the call of [update] with its write, a launch error, a
    chunk of output) leaves the handle and the running child as they are and
    adds no start request and no signal to the log. *)
Theorem only_jobs_and_exits_touch_the_subprocess (ev : Event) (l l' : Loop) :
  step ev l = Some l' ->
  (forall sp, ev <> RunJob sp) ->
  isOnExit ev = false ->
  ssProcess (this (sys l')) = ssProcess (this (sys l)) /\
  live (sys l') = live (sys l) /\
  spawnRequests (trace (sys l')) = spawnRequests (trace (sys l)) /\
  killRequests (trace (sys l')) = killRequests (trace (sys l)).
Proof.
  intros Hstep Hjob Hexit.
  destruct (step_cases ev l l' Hstep) as (added & Htr & [H|[H|H]]).
  - destruct H as (_ & _ & Hp & Hl & _ & Hs & _ & Hk).
    rewrite Htr, spawnRequests_app, killRequests_app, Hs, Hk, !app_nil_r. auto.
  - destruct H as (sp & pid & -> & _). now destruct (Hjob sp).
  - destruct H as (sp & [(-> & _)|(pid & code & signal & -> & _)] & _).
    + now destruct (Hjob sp).
    + discriminate.
Qed.

Lemma step_keeps_handle (ev : Event) (l l' : Loop) :
  step ev l = Some l' ->
  is_Some (ssProcess (this (sys l))) -> is_Some (ssProcess (this (sys l'))).
Proof.
  intros Hstep Hsome.
  destruct (step_cases ev l l' Hstep) as (added & _ & [H|[H|H]]).
  - destruct H as (_ & _ & -> & _). exact Hsome.
  - destruct H as (sp & pid & _ & _ & -> & _). exact Hsome.
  - destruct H as (sp & _ & -> & _). cbn. eauto.
Qed.

Lemma run_keeps_handle (evs : list Event) :
  forall l l',
    run evs l = Some l' ->
    is_Some (ssProcess (this (sys l))) -> is_Some (ssProcess (this (sys l'))).
Proof.
  induction evs as [|ev evs IH]; intros l l'; cbn [run].
  - intros [= <-]. auto.
  - destruct (step ev l) as [l1|] eqn:Hstep; [|discriminate].
    intros Hrun Hsome. apply (IH l1 l' Hrun).
    now apply (step_keeps_handle ev l l1).
Qed.

(** X10: the component has no way back: once it holds a handle it holds one
    after every further history. *)
Theorem handle_is_never_dropped
    (evs : list Event) (l l' : Loop) (pid : Pid) :
  ssProcess (this (sys l)) = Some pid ->
  run evs l = Some l' ->
  exists pid', ssProcess (this (sys l')) = Some pid'.
Proof.
  intros Hp Hrun. apply (run_keeps_handle evs l l' Hrun). eauto.
Qed.

Lemma step_counts_starts (ev : Event) (l l' : Loop) :
  supervised (sys l) ->
  step ev l = Some l' ->
  startsRequested (trace (sys l')) + handleCount (this (sys l)) =
  startsRequested (trace (sys l)) + handleCount (this (sys l')) +
  (if isOnExit ev then 1 else 0).
Proof.
  intros Hs Hstep. unfold handleCount.
  destruct (step_cases ev l l' Hstep) as (added & Htr & [H|[H|H]]);
    rewrite Htr, startsRequested_app.
  - destruct H as (-> & _ & -> & _ & _ & -> & _). simpl. lia.
  - destruct H as (sp & pid & -> & _ & -> & _ & _ & ->). simpl. lia.
  - destruct H as (sp & [(-> & Hp & -> & _)|(pid & code & signal & -> & Hin & -> & _)]
                      & -> & _).
    + rewrite Hp, spawnRequests_startEffects. simpl. lia.
    + destruct (spawnPids_exit code signal (this (sys l)) (env (sys l))
                  (nextPid (sys l))) as (_ & -> & _).
      unfold supervised in Hs.
      destruct (ssProcess (this (sys l))) as [p|]; [simpl; lia|].
      destruct Hs as (Hl & _). rewrite Hl in Hin. now apply elem_of_nil in Hin.
Qed.

Lemma run_counts_starts (evs : list Event) :
  forall l l',
    supervised (sys l) ->
    run evs l = Some l' ->
    startsRequested (trace (sys l')) + handleCount (this (sys l)) =
    startsRequested (trace (sys l)) + handleCount (this (sys l')) +
    exitsHandled evs.
Proof.
  induction evs as [|ev evs IH]; intros l l' Hs; cbn [run].
  - intros [= <-]. unfold exitsHandled. simpl. lia.
  - destruct (step ev l) as [l1|] eqn:Hstep; [|discriminate]. intros Hrun.
    pose proof (step_counts_starts ev l l1 Hs Hstep) as H1.
    pose proof (IH l1 l' (supervised_step ev l l1 Hs Hstep) Hrun) as H2.
    unfold exitsHandled in *. simpl. destruct (isOnExit ev); simpl; lia.
Qed.

(** X11: the start requests of a history are the first start, if there was
    one, and one restart for every exit that was handled: nothing else
    starts a child. *)
Theorem starts_are_the_first_start_and_the_restarts
    (evs : list Event) (t : OutlineShadowsocksServer) (e : ProcessEnv)
    (fs : gmap string string) (l : Loop) :
  ssProcess t = None ->
  run evs (boot t e fs) = Some l ->
  startsRequested (trace (sys l)) =
  handleCount (this (sys l)) + exitsHandled evs.
Proof.
  intros Ht Hrun.
  pose proof (run_counts_starts evs _ _ (supervised_boot t e fs Ht) Hrun) as H.
  unfold handleCount in H at 1. cbn [boot sys this trace] in H.
  rewrite Ht in H. unfold startsRequested at 2 in H. simpl in H. lia.
Qed.

(** The handles go out in order and the one held is the last. *)
Lemma step_spawned (ev : Event) (l l' : Loop) :
  step ev l = Some l' ->
  spawnPids (trace (sys l)) = seq 0 (nextPid (sys l)) /\
  ssProcess (this (sys l)) = last (spawnPids (trace (sys l))) ->
  spawnPids (trace (sys l')) = seq 0 (nextPid (sys l')) /\
  ssProcess (this (sys l')) = last (spawnPids (trace (sys l'))).
Proof.
  intros Hstep (Hseq & Hlast).
  destruct (step_cases ev l l' Hstep) as (added & Htr & [H|[H|H]]);
    rewrite Htr; unfold spawnPids in *; rewrite omap_app.
  - destruct H as (_ & _ & -> & _ & -> & _ & -> & _). now rewrite app_nil_r.
  - destruct H as (sp & pid & _ & _ & -> & _ & -> & ->). simpl.
    now rewrite app_nil_r.
  - destruct H as (sp & H & -> & ->).
    assert (omap spawnPid added = [nextPid (sys l)]) as ->.
    { destruct H as [(_ & _ & -> & _)|(pid & code & signal & _ & _ & -> & _)];
        reflexivity. }
    rewrite Hseq, last_snoc, seq_S. auto.
Qed.

Lemma run_spawned (evs : list Event) :
  forall l l',
    run evs l = Some l' ->
    spawnPids (trace (sys l)) = seq 0 (nextPid (sys l)) /\
    ssProcess (this (sys l)) = last (spawnPids (trace (sys l))) ->
    spawnPids (trace (sys l')) = seq 0 (nextPid (sys l')) /\
    ssProcess (this (sys l')) = last (spawnPids (trace (sys l'))).
Proof.
  induction evs as [|ev evs IH]; intros l l'; cbn [run].
  - intros [= <-]. auto.
  - destruct (step ev l) as [l1|] eqn:Hstep; [|discriminate]. intros Hrun H.
    apply (IH l1 l' Hrun). now apply (step_spawned ev l l1).
Qed.

(** X12: every start gets a fresh handle, and the handle the component
    holds is that of the child it spawned last; it holds none exactly when
    it never spawned. *)
Theorem handle_is_the_last_child_spawned
    (evs : list Event) (t : OutlineShadowsocksServer) (e : ProcessEnv)
    (fs : gmap string string) (l : Loop) :
  ssProcess t = None ->
  run evs (boot t e fs) = Some l ->
  spawnPids (trace (sys l)) = seq 0 (nextPid (sys l)) /\
  ssProcess (this (sys l)) = last (spawnPids (trace (sys l))).
Proof.
  intros Ht Hrun. apply (run_spawned evs _ _ Hrun). cbn. now rewrite Ht.
Qed.

Lemma step_signals (ev : Event) (l l' : Loop) :
  step ev l = Some l' ->
  ssProcess (this (sys l)) = last (spawnPids (trace (sys l))) ->
  (forall pid signal, In (pid, signal) (killRequests (trace (sys l))) ->
     signal = "SIGHUP" /\ In pid (spawnPids (trace (sys l)))) ->
  forall pid signal, In (pid, signal) (killRequests (trace (sys l'))) ->
    signal = "SIGHUP" /\ In pid (spawnPids (trace (sys l'))).
Proof.
  intros Hstep Hlast Hold pid signal.
  destruct (step_cases ev l l' Hstep) as (added & Htr & H).
  rewrite Htr, killRequests_app. unfold spawnPids in *. rewrite omap_app.
  rewrite !in_app_iff. intros [Hin|Hin].
  - destruct (Hold pid signal Hin). auto.
  - destruct H as [H|[H|H]].
    + destruct H as (_ & _ & _ & _ & _ & _ & _ & Hk). rewrite Hk in Hin.
      destruct Hin.
    + destruct H as (sp & p & _ & Hp & _ & _ & _ & ->). simpl in Hin.
      destruct Hin as [[= <- <-]|[]]. split; [reflexivity|]. left.
      rewrite Hp in Hlast. symmetry in Hlast.
      apply list_elem_of_In. eapply last_Some_elem_of. exact Hlast.
    + destruct H as (sp & [(_ & _ & -> & _)|(p & code & s & _ & _ & -> & _)] & _);
        destruct Hin.
Qed.

Lemma run_signals (evs : list Event) :
  forall l l',
    run evs l = Some l' ->
    spawnPids (trace (sys l)) = seq 0 (nextPid (sys l)) /\
    ssProcess (this (sys l)) = last (spawnPids (trace (sys l))) ->
    (forall pid signal, In (pid, signal) (killRequests (trace (sys l))) ->
       signal = "SIGHUP" /\ In pid (spawnPids (trace (sys l)))) ->
    forall pid signal, In (pid, signal) (killRequests (trace (sys l'))) ->
      signal = "SIGHUP" /\ In pid (spawnPids (trace (sys l'))).
Proof.
  induction evs as [|ev evs IH]; intros l l'; cbn [run].
  - intros [= <-]. auto.
  - destruct (step ev l) as [l1|] eqn:Hstep; [|discriminate].
    intros Hrun Hsp Hold. apply (IH l1 l' Hrun).
    + now apply (step_spawned ev l l1).
    + apply (step_signals ev l l1 Hstep); [apply Hsp | exact Hold].
Qed.

(** X13: the only signal the component ever sends is [SIGHUP], and it sends
    it only to a child it spawned itself. *)
Theorem only_SIGHUP_is_sent_and_only_to_own_children
    (evs : list Event) (t : OutlineShadowsocksServer) (e : ProcessEnv)
    (fs : gmap string string) (l : Loop) (pid : Pid) (signal : string) :
  ssProcess t = None ->
  run evs (boot t e fs) = Some l ->
  In (pid, signal) (killRequests (trace (sys l))) ->
  signal = "SIGHUP" /\ In pid (spawnPids (trace (sys l))).
Proof.
  intros Ht Hrun. apply (run_signals evs _ _ Hrun).
  - cbn. now rewrite Ht.
  - cbn. intros p s [].
Qed.

Lemma step_without_child (ev : Event) (l l' : Loop) :
  step ev l = Some l' ->
  is_Some (ssProcess (this (sys l))) -> live (sys l) = [] ->
  spawnRequests (trace (sys l')) = spawnRequests (trace (sys l)) /\
  live (sys l') = [].
Proof.
  intros Hstep [p Hp] Hlive.
  destruct (step_cases ev l l' Hstep) as (added & Htr & [H|[H|H]]);
    rewrite Htr, spawnRequests_app.
  - destruct H as (_ & _ & _ & -> & _ & -> & _). now rewrite app_nil_r.
  - destruct H as (sp & pid & _ & _ & _ & -> & _ & ->). simpl.
    now rewrite app_nil_r.
  - destruct H as (sp & [(_ & Hnone & _)|(pid & code & signal & _ & Hin & _)] & _).
    + congruence.
    + rewrite Hlive in Hin. now apply elem_of_nil in Hin.
Qed.

Lemma run_without_child (evs : list Event) :
  forall l l',
    run evs l = Some l' ->
    is_Some (ssProcess (this (sys l))) -> live (sys l) = [] ->
    spawnRequests (trace (sys l')) = spawnRequests (trace (sys l)) /\
    live (sys l') = [].
Proof.
  induction evs as [|ev evs IH]; intros l l'; cbn [run].
  - intros [= <-]. auto.
  - destruct (step ev l) as [l1|] eqn:Hstep; [|discriminate].
    intros Hrun Hp Hlive.
    destruct (step_without_child ev l l1 Hstep Hp Hlive) as (Hs1 & Hl1).
    destruct (IH l1 l' Hrun (step_keeps_handle ev l l1 Hstep Hp) Hl1) as (Hs & Hl).
    split; [congruence | exact Hl].
Qed.

(** X16: [update] looks at the handle, not at the child.  When [spawn]
    accepts the command and the first launch fails afterwards, the handle is
    kept and nothing runs; whatever happens afterwards, that failed start
    stays the only one. *)
Theorem failed_launch_is_not_retried
    (l : Loop) (accessKeys : list ShadowsocksAccessKey) (io : IoOutcome)
    (error : JsError) (evs : list Event) (l' : Loop) :
  idle l = true ->
  ssProcess (this (sys l)) = None ->
  binaryFilename (this (sys l)) <> EmptyString ->
  live (sys l) = [] ->
  ioSucceeds io = true ->
  run ([CallUpdate accessKeys io; RunJob (LaunchFails error)] ++ evs) l = Some l' ->
  startsRequested (trace (sys l')) = S (startsRequested (trace (sys l))) /\
  live (sys l') = [] /\
  is_Some (ssProcess (this (sys l'))).
Proof.
  intros Hidle Hnone Hbin Hlive Hio.
  rewrite run_app, run_update by exact Hidle.
  destruct (ioSucceeds_true io Hio) as (Hm & stamp & Hw).
  assert (startThrows (this (sys l)) = false) as Hst
    by (apply startThrows_false; auto).
  destruct (update_fulfilled accessKeys io (LaunchFails error) (sys l) stamp
              Hm Hw Hst)
    as (_ & _ & _ & H).
  rewrite Hnone in H. destruct H as (Ht & Hl & _ & Htr).
  set (l1 := mkLoop _ _ _ _). intros Hrun.
  assert (is_Some (ssProcess (this (sys l1)))) as Hsome.
  { cbn [l1 sys]. rewrite Ht. cbn. eauto. }
  assert (live (sys l1) = []) as Hlive1.
  { cbn [l1 sys]. rewrite Hl, Hlive. reflexivity. }
  destruct (run_without_child evs l1 l' Hrun Hsome Hlive1) as (Hs & Hl').
  split; [|split; [exact Hl'|]].
  - unfold startsRequested. rewrite Hs. cbn [l1 sys]. rewrite Htr.
    rewrite !spawnRequests_app, spawnRequests_rejectedLogs,
      spawnRequests_startEffects, length_app. simpl. lia.
  - exact (run_keeps_handle evs l1 l' Hrun Hsome).
Qed.



(** ** Builder calls, further *)



Lemma commandArguments_optional (t : OutlineShadowsocksServer) :
  commandArguments t =
  ["-config"; configFilename t; "-metrics"; metricsLocation t] ++
  optionalArgument "-ip_country_db" (ipCountryFilename t) ++
  optionalArgument "-ip_asn_db" (ipAsnFilename t) ++
  (if verbose t then ["-verbose"] else []) ++
  (if isReplayProtectionEnabled t then ["--replay_history=10000"] else []).
Proof.
  unfold commandArguments, optionalArgument, replayHistoryArgument.
  destruct (truthy (ipCountryFilename t)), (truthy (ipAsnFilename t)),
    (verbose t), (isReplayProtectionEnabled t); reflexivity.
Qed.

Lemma builder_calls_filenames (calls : list Event) :
  forall t,
    ipCountryFilename (fold_left applyBuilderCall calls t) =
      fold_left (fun acc ev =>
                   match ev with
                   | CallConfigureCountryMetrics filename => Some filename
                   | _ => acc
                   end) calls (ipCountryFilename t) /\
    ipAsnFilename (fold_left applyBuilderCall calls t) =
      fold_left (fun acc ev =>
                   match ev with
                   | CallConfigureAsnMetrics filename => Some filename
                   | _ => acc
                   end) calls (ipAsnFilename t).
Proof.
  induction calls as [|ev calls IH]; intros t; cbn [fold_left]; [auto|].
  destruct (IH (applyBuilderCall t ev)) as (-> & ->).
  destruct ev; auto.
Qed.

(** X8: of a sequence of builder calls on a new component, the argument list
    keeps the filename of the last [configureCountryMetrics], that of the last
    [configureAsnMetrics], and whether [enableReplayProtection] occurred;
    earlier filenames and the order of the calls of different kinds do not
    show. *)
Theorem last_builder_call_of_each_kind_decides
    (command config : string) (verbosely : bool) (metrics : string)
    (calls : list Event) :
  commandArguments
    (fold_left applyBuilderCall calls (new command config verbosely metrics)) =
  ["-config"; config; "-metrics"; metrics] ++
  optionalArgument "-ip_country_db" (lastCountryMetrics calls) ++
  optionalArgument "-ip_asn_db" (lastAsnMetrics calls) ++
  (if verbosely then ["-verbose"] else []) ++
  (if existsb isEnableReplayProtection calls
   then ["--replay_history=10000"] else []).
Proof.
  rewrite commandArguments_optional.
  pose proof (builder_calls_spec calls (new command config verbosely metrics))
    as H. cbv zeta in H. destruct H as (_ & _ & -> & -> & -> & ->).
  destruct (builder_calls_filenames calls
              (new command config verbosely metrics)) as (-> & ->).
  reflexivity.
Qed.

(** X6: an empty filename is falsy: after [configureCountryMetrics("")] the
    argument list has no [-ip_country_db] pair, whatever was configured
    before, and likewise for [configureAsnMetrics("")]. *)
Theorem empty_filename_passes_no_database (t : OutlineShadowsocksServer) :
  commandArguments (configureCountryMetrics EmptyString t) =
    ["-config"; configFilename t; "-metrics"; metricsLocation t] ++
    optionalArgument "-ip_asn_db" (ipAsnFilename t) ++
    (if verbose t then ["-verbose"] else []) ++
    (if isReplayProtectionEnabled t then ["--replay_history=10000"] else []) /\
  commandArguments (configureAsnMetrics EmptyString t) =
    ["-config"; configFilename t; "-metrics"; metricsLocation t] ++
    optionalArgument "-ip_country_db" (ipCountryFilename t) ++
    (if verbose t then ["-verbose"] else []) ++
    (if isReplayProtectionEnabled t then ["--replay_history=10000"] else []).
Proof.
  split; rewrite commandArguments_optional; reflexivity.
Qed.

(** X7: two filenames that are not empty are passed as
    [-ip_country_db <country> -ip_asn_db <asn>], right after the four fixed
    arguments and before [-verbose] and the replay flag, in whichever order
    the two builder calls were made. *)
Theorem configured_databases_are_passed_in_order
    (t : OutlineShadowsocksServer) (country asn : string) :
  country <> EmptyString -> asn <> EmptyString ->
  commandArguments (configureAsnMetrics asn (configureCountryMetrics country t)) =
    ["-config"; configFilename t; "-metrics"; metricsLocation t;
     "-ip_country_db"; country; "-ip_asn_db"; asn] ++
    (if verbose t then ["-verbose"] else []) ++
    (if isReplayProtectionEnabled t then ["--replay_history=10000"] else []) /\
  commandArguments (configureCountryMetrics country (configureAsnMetrics asn t)) =
  commandArguments (configureAsnMetrics asn (configureCountryMetrics country t)).
Proof.
  intros Hc Ha. rewrite !commandArguments_optional. cbn.
  unfold optionalArgument, truthy.
  destruct country; [congruence|]. destruct asn; [congruence|]. auto.
Qed.

(** ** The cipher test, further *)

(** X1: the test looks at the end of the name only: a name that is accepted
    stays accepted with anything put in front of it. *)
Theorem isAeadCipher_looks_at_the_end_only (prefix cipherAlias : string) :
  isAeadCipher cipherAlias = true ->
  isAeadCipher (prefix +:+ cipherAlias) = true.
Proof.
  rewrite !isAeadCipher_spec. unfold ends_in_aead_suffix.
  rewrite toLowerCase_append.
  intros [(p & ->)|(p & ->)]; [left|right];
    exists (toLowerCase prefix +:+ p); now rewrite append_assoc.
Qed.

(** X2: a name of fewer than three code units, the empty name included, is
    rejected. *)
Theorem isAeadCipher_rejects_short_names (cipherAlias : string) :
  String.length cipherAlias < 3 -> isAeadCipher cipherAlias = false.
Proof.
  intros Hlen. unfold isAeadCipher, endsWith.
  rewrite toLowerCase_length. cbn [String.length].
  destruct (Nat.leb_spec 3 (String.length cipherAlias)); [lia|].
  destruct (Nat.leb_spec 8 (String.length cipherAlias)); [lia|].
  reflexivity.
Qed.

(** ** The write, further *)

Lemma filter_isLogError_rejectedLogs (accessKeys : list ShadowsocksAccessKey) :
  List.filter isLogError (rejectedLogs accessKeys) = rejectedLogs accessKeys.
Proof.
  unfold rejectedLogs.
  induction (List.filter _ accessKeys) as [|k ks IH]; [reflexivity|].
  simpl. now rewrite IH.
Qed.

(** X3: what [update] adds to the log begins with one diagnostic for each
    rejected credential, in the order of the input and before anything else;
    no other error is logged by it. *)
Theorem one_diagnostic_per_rejected_credential
    (accessKeys : list ShadowsocksAccessKey) (io : IoOutcome)
    (sp : SpawnOutcome) (s : Sys) :
  exists rest,
    trace (snd (update accessKeys io sp s)) =
      trace s ++
      map (fun key => LogError (unsupportedCipherMessage key))
          (List.filter (fun key => negb (isAeadCipher (cipher key))) accessKeys) ++
      rest /\
    List.filter isLogError rest = [].
Proof.
  fold (rejectedLogs accessKeys).
  destruct (ioSucceeds io) eqn:Hio.
  - destruct (ioSucceeds_true io Hio) as (Hm & stamp & Hw).
    destruct (startThrows (this s)) eqn:Hst.
    + destruct (update_start_throws accessKeys io sp s stamp Hm Hw Hst)
        as (_ & _ & _ & _ & _ & _ & ->).
      eexists; split; reflexivity.
    + destruct (update_fulfilled accessKeys io sp s stamp Hm Hw Hst)
        as (_ & _ & _ & H).
      destruct (ssProcess (this s)); destruct H as (_ & _ & _ & ->);
        eexists; split; reflexivity.
  - rewrite update_rejected by assumption.
    pose proof (writeConfigFile_spec accessKeys io s) as H. cbv zeta in H.
    destruct H as (_ & _ & _ & _ & _ & H). unfold ioSucceeds in Hio.
    destruct (io_mkdirp io), (io_write io); try discriminate;
      destruct H as (_ & _ & ->);
      first [ eexists; split; reflexivity
            | exists []; rewrite app_nil_r; split; reflexivity ].
Qed.

(** X4: when [mkdirp.sync] throws, the write is never attempted: the promise
    is rejected with that error, no file is written or created, the component
    and its child are as before, and the log gains the diagnostics only. *)
Theorem failed_mkdirp_writes_nothing
    (accessKeys : list ShadowsocksAccessKey) (io : IoOutcome)
    (sp : SpawnOutcome) (s : Sys) (error : JsError) :
  io_mkdirp io = MkdirpThrows error ->
  fst (update accessKeys io sp s) = Rejected error /\
  files (snd (update accessKeys io sp s)) = files s /\
  this (snd (update accessKeys io sp s)) = this s /\
  live (snd (update accessKeys io sp s)) = live s /\
  trace (snd (update accessKeys io sp s)) =
    trace s ++
    map (fun key => LogError (unsupportedCipherMessage key))
        (List.filter (fun key => negb (isAeadCipher (cipher key))) accessKeys).
Proof.
  intros Hm. fold (rejectedLogs accessKeys).
  rewrite update_rejected by (unfold ioSucceeds; now rewrite Hm).
  pose proof (writeConfigFile_spec accessKeys io s) as H. cbv zeta in H.
  rewrite Hm in H. destruct H as (Ht & Hl & _ & _ & _ & Hr & Hf & Htr).
  auto.
Qed.



(** X17: when the only running child exits and the launch of its
    replacement fails, that restart is the last start request: no later
    history starts a child, and none runs. *)
Theorem failed_relaunch_ends_the_supervision
    (l : Loop) (pid : Pid) (code : option Z) (signal : option string)
    (error : JsError) (evs : list Event) (l' : Loop) :
  live (sys l) = [pid] ->
  run (OnExit pid code signal (LaunchFails error) :: evs) l = Some l' ->
  startsRequested (trace (sys l')) = S (startsRequested (trace (sys l))) /\
  live (sys l') = [].
Proof.
  intros Hlive. cbn [run].
  destruct (step (OnExit pid code signal (LaunchFails error)) l) as [l1|] eqn:Hstep;
    [|discriminate].
  intros Hrun.
  destruct (step_cases _ l l1 Hstep) as (added & Htr & [H|[H|H]]).
  - destruct H as (Hex & _). discriminate.
  - destruct H as (sp & p & Hev & _). discriminate.
  - destruct H as (sp & [(Hev & _)|(p & c & sg & Hev & _ & -> & Hl1)] & Ht & _);
      [discriminate|].
    injection Hev as <- <- <- <-.
    assert (live (sys l1) = []) as Hlive1.
    { rewrite Hl1, Hlive, filter_cons, filter_nil.
      now rewrite decide_False by auto. }
    assert (is_Some (ssProcess (this (sys l1)))) as Hsome.
    { rewrite Ht. cbn. eauto. }
    destruct (run_without_child evs l1 l' Hrun Hsome Hlive1) as (Hs & Hl').
    split; [|exact Hl'].
    unfold startsRequested. rewrite Hs, Htr, spawnRequests_app, length_app.
    destruct (spawnPids_exit code signal (this (sys l)) (env (sys l))
                (nextPid (sys l))) as (_ & -> & _).
    simpl. lia.
Qed.

Lemma step_keeps_replay_protection (ev : Event) (l l' : Loop) :
  step ev l = Some l' ->
  isReplayProtectionEnabled (this (sys l)) = true ->
  isReplayProtectionEnabled (this (sys l')) = true.
Proof.
  intros Hstep Hon.
  destruct (step_cases ev l l' Hstep) as (added & _ & [H|[H|H]]).
  - destruct H as (_ & [->| ->] & _); [exact Hon|]. now destruct ev.
  - destruct H as (sp & pid & _ & _ & -> & _). exact Hon.
  - destruct H as (sp & _ & -> & _). exact Hon.
Qed.

Lemma run_keeps_replay_protection (evs : list Event) :
  forall l l',
    run evs l = Some l' ->
    isReplayProtectionEnabled (this (sys l)) = true ->
    isReplayProtectionEnabled (this (sys l')) = true.
Proof.
  induction evs as [|ev evs IH]; intros l l'; cbn [run].
  - intros [= <-]. auto.
  - destruct (step ev l) as [l1|] eqn:Hstep; [|discriminate].
    intros Hrun Hon. apply (IH l1 l' Hrun).
    now apply (step_keeps_replay_protection ev l l1).
Qed.

(** X18: replay protection cannot be switched off: once enabled it stays
    enabled through every history, and every argument list built from then on
    ends with [--replay_history=10000]. *)
Theorem replay_protection_is_never_switched_off
    (evs : list Event) (l l' : Loop) :
  isReplayProtectionEnabled (this (sys l)) = true ->
  run evs l = Some l' ->
  isReplayProtectionEnabled (this (sys l')) = true /\
  exists front,
    commandArguments (this (sys l')) = front ++ ["--replay_history=10000"].
Proof.
  intros Hon Hrun.
  pose proof (run_keeps_replay_protection evs l l' Hrun Hon) as Hon'.
  split; [exact Hon'|].
  unfold commandArguments. rewrite Hon'. eauto.
Qed.

(** ** Instances of the further properties *)

Lemma isAeadCipher_looks_at_the_end_only_witness :
  isAeadCipher ("AEAD_" +:+ "CHACHA20_POLY1305") = true.
Proof.
  apply (isAeadCipher_looks_at_the_end_only "AEAD_" "CHACHA20_POLY1305").
  reflexivity.
Defined.

Lemma isAeadCipher_rejects_short_names_witness : isAeadCipher "cm" = false.
Proof. apply (isAeadCipher_rejects_short_names "cm"). simpl. lia. Defined.

Lemma failed_mkdirp_writes_nothing_witness :
  fst (update [Sample.keyA; Sample.keyB] Sample.ioNoDirectory Launched
              Sample.fresh)
    = Rejected "EACCES: permission denied, mkdir" /\
  files (snd (update [Sample.keyA; Sample.keyB] Sample.ioNoDirectory Launched
                     Sample.fresh)) = files Sample.fresh.
Proof.
  destruct (failed_mkdirp_writes_nothing
              [Sample.keyA; Sample.keyB] Sample.ioNoDirectory Launched
              Sample.fresh "EACCES: permission denied, mkdir" eq_refl)
    as (H1 & H2 & _).
  split; [exact H1 | exact H2].
Defined.


Lemma configured_databases_are_passed_in_order_witness :
  commandArguments
    (configureAsnMetrics "/db/asn.mmdb"
       (configureCountryMetrics "/db/country.mmdb" Sample.server)) =
  ["-config"; "/opt/outline/config.yml"; "-metrics"; "127.0.0.1:9092";
   "-ip_country_db"; "/db/country.mmdb"; "-ip_asn_db"; "/db/asn.mmdb";
   "-verbose"].
Proof.
  refine (proj1 (configured_databases_are_passed_in_order
                   Sample.server "/db/country.mmdb" "/db/asn.mmdb" _ _));
    discriminate.
Defined.


Lemma handle_is_never_dropped_witness :
  exists pid', ssProcess (this (sys Scenario.afterFailedRelaunch)) = Some pid'.
Proof.
  assert (ssProcess (this (sys Sample.afterFirstUpdate)) = Some 0) as Hp
    by (vm_compute; reflexivity).
  assert (run [OnExit 0 (Some 1%Z) None (LaunchFails "spawn EACCES")]
              Sample.afterFirstUpdate = Some Scenario.afterFailedRelaunch)
    as Hrun by (vm_compute; reflexivity).
  exact (handle_is_never_dropped _ _ _ 0 Hp Hrun).
Defined.

Lemma starts_are_the_first_start_and_the_restarts_witness :
  startsRequested (trace (sys Scenario.afterFailedRelaunch)) =
  handleCount (this (sys Scenario.afterFailedRelaunch)) + 1.
Proof.
  assert (run [CallUpdate [Sample.keyA] Sample.ioDone; RunJob Launched;
               RunJob Launched; RunJob Launched;
               OnExit 0 (Some 1%Z) None (LaunchFails "spawn EACCES")]
              (boot Sample.server Sample.processEnv Sample.disk)
          = Some Scenario.afterFailedRelaunch) as Hrun
    by (vm_compute; reflexivity).
  exact (starts_are_the_first_start_and_the_restarts
           _ Sample.server _ _ _ eq_refl Hrun).
Defined.

Lemma handle_is_the_last_child_spawned_witness :
  ssProcess (this (sys Scenario.afterFailedRelaunch)) =
  last (spawnPids (trace (sys Scenario.afterFailedRelaunch))).
Proof.
  assert (run [CallUpdate [Sample.keyA] Sample.ioDone; RunJob Launched;
               RunJob Launched; RunJob Launched;
               OnExit 0 (Some 1%Z) None (LaunchFails "spawn EACCES")]
              (boot Sample.server Sample.processEnv Sample.disk)
          = Some Scenario.afterFailedRelaunch) as Hrun
    by (vm_compute; reflexivity).
  exact (proj2 (handle_is_the_last_child_spawned
                  _ Sample.server _ _ _ eq_refl Hrun)).
Defined.

Lemma only_SIGHUP_is_sent_and_only_to_own_children_witness :
  In 0 (spawnPids (trace (sys Scenario.afterSecondUpdate))).
Proof.
  assert (run [CallUpdate [Sample.keyA] Sample.ioDone; RunJob Launched;
               RunJob Launched; RunJob Launched;
               CallUpdate [Sample.keyC] Sample.ioDone; RunJob Launched]
              (boot Sample.server Sample.processEnv Sample.disk)
          = Some Scenario.afterSecondUpdate) as Hrun
    by (vm_compute; reflexivity).
  assert (In (0, "SIGHUP") (killRequests (trace (sys Scenario.afterSecondUpdate))))
    as Hin by (vm_compute; auto).
  exact (proj2 (only_SIGHUP_is_sent_and_only_to_own_children
                  _ Sample.server _ _ _ 0 "SIGHUP" eq_refl Hrun Hin)).
Defined.


Lemma only_jobs_and_exits_touch_the_subprocess_witness :
  live (sys Scenario.afterOutput) = live (sys Sample.afterFirstUpdate).
Proof.
  assert (step (OnStdoutData 0 "listening") Sample.afterFirstUpdate
          = Some Scenario.afterOutput) as Hstep by (vm_compute; reflexivity).
  refine (proj1 (proj2 (only_jobs_and_exits_touch_the_subprocess
                          _ _ _ Hstep _ eq_refl))).
  intros sp. discriminate.
Defined.

Lemma failed_launch_is_not_retried_witness :
  startsRequested (trace (sys Scenario.afterFailedLaunchAndUpdate)) = 1.
Proof.
  assert (run ([CallUpdate [Sample.keyA] Sample.ioDone;
                RunJob (LaunchFails "spawn ENOENT")] ++
               [RunJob Launched; RunJob Launched;
                CallUpdate [Sample.keyC] Sample.ioDone; RunJob Launched])
              (boot Sample.server Sample.processEnv Sample.disk)
          = Some Scenario.afterFailedLaunchAndUpdate) as Hrun
    by (vm_compute; reflexivity).
  assert (binaryFilename
            (this (sys (boot Sample.server Sample.processEnv Sample.disk)))
          <> EmptyString) as Hbin by (vm_compute; discriminate).
  exact (proj1 (failed_launch_is_not_retried
                  (boot Sample.server Sample.processEnv Sample.disk)
                  [Sample.keyA] Sample.ioDone "spawn ENOENT"
                  [RunJob Launched; RunJob Launched;
                   CallUpdate [Sample.keyC] Sample.ioDone; RunJob Launched]
                  Scenario.afterFailedLaunchAndUpdate
                  eq_refl eq_refl Hbin eq_refl eq_refl Hrun)).
Defined.

Lemma failed_relaunch_ends_the_supervision_witness :
  live (sys Scenario.afterFailedRelaunch) = [].
Proof.
  assert (live (sys Sample.afterFirstUpdate) = [0]) as Hlive
    by (vm_compute; reflexivity).
  assert (run [OnExit 0 (Some 1%Z) None (LaunchFails "spawn EACCES")]
              Sample.afterFirstUpdate = Some Scenario.afterFailedRelaunch)
    as Hrun by (vm_compute; reflexivity).
  exact (proj2 (failed_relaunch_ends_the_supervision
                  _ 0 (Some 1%Z) None "spawn EACCES" [] _ Hlive Hrun)).
Defined.

Lemma replay_protection_is_never_switched_off_witness :
  isReplayProtectionEnabled
    (this (sys (with_sys (exec (on_stdout_data "listening")
                               (sys Scenario.afterLateEnable))
                         Scenario.afterLateEnable))) = true.
Proof.
  assert (isReplayProtectionEnabled (this (sys Scenario.afterLateEnable)) = true)
    as Hon by (vm_compute; reflexivity).
  assert (run [OnStdoutData 0 "listening"] Scenario.afterLateEnable
          = Some (with_sys (exec (on_stdout_data "listening")
                                 (sys Scenario.afterLateEnable))
                           Scenario.afterLateEnable)) as Hrun
    by (vm_compute; reflexivity).
  exact (proj1 (replay_protection_is_never_switched_off _ _ _ Hon Hrun)).
Defined.

